(** * experimentation_charts: [plot_cvr_distributions]

    A shallow embedding of [src/experimentation_charts.py].  The function
    reads two arrays of trial outcomes, computes conversion rates and
    standard errors, and issues a sequence of drawing calls.

    Numbers are idealised: Python floats are read as real numbers, so the
    arithmetic below is exact, and [numpy.sqrt] is the real square root (on
    a negative radicand, which only a sample with entries other than 0 and
    1 can produce, numpy answers [nan]; the real [sqrt] is 0 there).
    Statements that rest on the outcome of a comparison, such as a
    probability lying inside or outside (0,1), are made away from the
    values where binary64 rounding could flip it (for instance
    [1 - alpha/2] rounds to 1 when [alpha] is below 2^-53).
    Arrays live in a store and are passed by reference, as numpy arrays
    are; drawing calls are appended to a log, which stands for the
    process-wide state of the plotting library. *)

From Stdlib Require Import String Reals Lra Lia ZArith Bool List Permutation.
From Stdlib Require Import Epsilon.
Import ListNotations.
Local Open Scope R_scope.

(** ** Exceptions and results *)

(** [ZeroDivisionError] is Python's own: [1 / n] on integers raises it when
    [n] is zero.  [DomainError] is what a quantile provider may answer to a
    probability it rejects.  [EmptySampleError] is named by the
    specification; no statement of the source raises it. *)
Inductive error : Type :=
| ZeroDivisionError
| EmptySampleError
| DomainError.

Inductive result (A : Type) : Type :=
| Ok (a : A)
| Err (e : error).
Arguments Ok {A} a.
Arguments Err {A} e.

(** ** The normal-distribution provider ([scipy.stats.norm])

    [pdf loc scale x] is [stats.norm(loc, scale).pdf(x)] and
    [ppf loc scale q] is [stats.norm(loc, scale).ppf(q)].  The library is not
    part of the repository, so the function is modelled over any provider. *)
Record norm_provider : Type := {
  pdf : R -> R -> R -> R;
  ppf : R -> R -> R -> result R
}.

(** ** Drawing calls ([matplotlib])

    One constructor per call the function makes, with the numbers it
    passes.  Constant styling arguments (line width, dash style, font size,
    the shading colour and opacity) are left out.  [Annotate v x y] is
    [plt.annotate(str(v), (x, y), ...)], where [v] is the number already
    rounded to four decimals: the text is kept as the number it prints. *)
Inductive plot_call : Type :=
| Subplots (width height : Z)                       (* plt.subplots(figsize=...) *)
| Plot (xs ys : list R) (label color : string)      (* ax.plot *)
| FillBetween (xs : list R) (y1 : R) (y2 : list R) (where_ : list bool)
                                                    (* ax.fill_between *)
| VLines (x ymin ymax : R)                          (* ax.vlines *)
| SetYlim (lo hi : R)                               (* ax.set(ylim=...) *)
| HLines (y xmin xmax : R)                          (* ax.hlines *)
| PlotPoint (x y : R)                               (* plt.plot(x, y, marker='o') *)
| Annotate (rounded4 : R) (x y : R)                 (* plt.annotate *)
| Legend                                            (* ax.legend *)
| SetTitle (title : string)                         (* ax.set_title *)
| YAxisVisible (b : bool)                           (* ax.axes.yaxis.set_visible *)
| XAxisVisible (b : bool)                           (* ax.axes.xaxis.set_visible *)
| Show.                                             (* plt.show *)

(** ** The store *)

Definition loc : Type := nat.
Bind Scope nat_scope with loc.

Record world : Type := {
  heap : loc -> list Z;
  canvas : list plot_call
}.

(** ** State and exception monad *)

Definition M (A : Type) : Type := world -> result A * world.

Definition ret {A} (a : A) : M A := fun w => (Ok a, w).

Definition bind {A B} (m : M A) (k : A -> M B) : M B :=
  fun w =>
    match m w with
    | (Ok a, w') => k a w'
    | (Err e, w') => (Err e, w')
    end.

Definition lift {A} (r : result A) : M A := fun w => (r, w).

Declare Scope monad_scope.
Delimit Scope monad_scope with monad.
Notation "x <- m ;; k" := (bind m (fun x => k))
  (at level 61, m at next level, right associativity) : monad_scope.
Notation "m ;; k" := (bind m (fun _ => k))
  (at level 61, right associativity) : monad_scope.
Local Open Scope monad_scope.

(** [len(a)] *)
Definition len (a : loc) : M nat := fun w => (Ok (length (heap w a)), w).

Definition array_sum (l : list Z) : Z := fold_right Z.add 0%Z l.

(** [numpy.mean] of an integer array: the sum over the count, as a float.
    On an empty array numpy answers [nan] with a warning, no exception; the
    value written here for that case is never used, the function having
    raised by then. *)
Definition mean_of (l : list Z) : R := IZR (array_sum l) / INR (length l).

(** [a.mean()] *)
Definition mean (a : loc) : M R := fun w => (Ok (mean_of (heap w a)), w).

(** A drawing call: the log grows by one entry. *)
Definition emit (c : plot_call) : M unit :=
  fun w => (Ok tt, {| heap := heap w; canvas := canvas w ++ [c] |}).

(** [x / n] with [n] a Python [int]. *)
Definition py_div (x : R) (n : nat) : result R :=
  if Nat.eqb n 0 then Err ZeroDivisionError else Ok (x / INR n).

(** ** numpy helpers *)

(** [numpy.linspace(start, stop, num)]: [num] points, both ends included. *)
Definition linspace (start stop : R) (num : nat) : list R :=
  map (fun i => start + INR i * ((stop - start) / INR (num - 1))) (seq 0 num).
Arguments linspace : simpl never.

(** [a.max()] and [a.min()] of a non-empty array. *)
Definition arr_max (l : list R) : R :=
  match l with
  | [] => 0
  | x :: t => fold_left Rmax t x
  end.

Definition arr_min (l : list R) : R :=
  match l with
  | [] => 0
  | x :: t => fold_left Rmin t x
  end.

(** [numpy.rint]: the nearest integer, a tie going to the even one. *)
Definition rint (x : R) : Z :=
  let n := Int_part x in
  let fr := frac_part x in
  if Rlt_dec fr (1 / 2) then n
  else if Rlt_dec (1 / 2) fr then (n + 1)%Z
  else if Z.even n then n else (n + 1)%Z.

(** [round(x, 4)] on a numpy float, which is [numpy.round(x, 4)]: scale by
    10^4, round to the nearest integer, scale back. *)
Definition round4 (x : R) : R := IZR (rint (x * 10000)) / 10000.

(** [xs >= c] and [xs <= c], element by element. *)
Definition mask_ge (xs : list R) (c : R) : list bool :=
  map (fun x => if Rge_dec x c then true else false) xs.

Definition mask_le (xs : list R) (c : R) : list bool :=
  map (fun x => if Rle_dec x c then true else false) xs.

(** ** The local variables after line 39 *)
Record locals : Type := {
  control_trials : nat;
  experimental_trials : nat;
  control_cvr : R;
  experimental_cvr : R;
  population_std : R;
  experimental_std : R;
  x_control : list R;
  x_experimental : list R;
  y_control : list R;
  y_experimental : list R
}.

Section Renderer.

Variable norm : norm_provider.

(** Lines 22-39: trials, conversion rates, standard deviations, axes. *)
Definition statistics (control experimental : loc) : M locals :=
  control_trials <- len control ;;
  experimental_trials <- len experimental ;;
  control_cvr <- mean control ;;
  experimental_cvr <- mean experimental ;;
  inv_c <- lift (py_div 1 control_trials) ;;
  inv_e <- lift (py_div 1 experimental_trials) ;;
  let population_std := sqrt ((inv_c + inv_e) * control_cvr * (1 - control_cvr)) in
  inv_e' <- lift (py_div 1 experimental_trials) ;;
  let experimental_std := sqrt (inv_e' * experimental_cvr * (1 - experimental_cvr)) in
  let x_control :=
    linspace (control_cvr - 4 * population_std) (control_cvr + 4 * population_std) 1000 in
  let x_experimental :=
    linspace (experimental_cvr - 4 * experimental_std)
             (experimental_cvr + 4 * experimental_std) 1000 in
  let y_control := map (pdf norm control_cvr population_std) x_control in
  let y_experimental := map (pdf norm experimental_cvr experimental_std) x_experimental in
  ret {| control_trials := control_trials;
         experimental_trials := experimental_trials;
         control_cvr := control_cvr;
         experimental_cvr := experimental_cvr;
         population_std := population_std;
         experimental_std := experimental_std;
         x_control := x_control;
         x_experimental := x_experimental;
         y_control := y_control;
         y_experimental := y_experimental |}.

(** Lines 50-89: the shaded tails of the control curve and their markers.
    Every [ppf] request of the source is made here, in the source's order. *)
Definition draw_tails (f : locals) (alpha : R) (tails : Z) : M unit :=
  let mu := control_cvr f in
  let sd := population_std f in
  if Z.eqb tails 2 then
    hi <- lift (ppf norm mu sd (1 - alpha / 2)) ;;
    emit (FillBetween (x_control f) 0 (map (pdf norm mu sd) (x_control f))
                      (mask_ge (x_control f) hi)) ;;
    hi1 <- lift (ppf norm mu sd (1 - alpha / 2)) ;;
    hi2 <- lift (ppf norm mu sd (1 - alpha / 2)) ;;
    emit (VLines hi1 0 (pdf norm mu sd hi2)) ;;
    lo <- lift (ppf norm mu sd (alpha / 2)) ;;
    emit (FillBetween (x_control f) 0 (map (pdf norm mu sd) (x_control f))
                      (mask_le (x_control f) lo)) ;;
    lo1 <- lift (ppf norm mu sd (alpha / 2)) ;;
    lo2 <- lift (ppf norm mu sd (alpha / 2)) ;;
    emit (VLines lo1 0 (pdf norm mu sd lo2))
  else
    c <- lift (ppf norm mu sd (1 - alpha)) ;;
    emit (FillBetween (x_control f) 0 (map (pdf norm mu sd) (x_control f))
                      (mask_ge (x_control f) c)) ;;
    c1 <- lift (ppf norm mu sd (1 - alpha)) ;;
    c2 <- lift (ppf norm mu sd (1 - alpha)) ;;
    emit (VLines c1 0 (pdf norm mu sd c2)).

(** Lines 92-137: limits, baseline, annotations of the two rates. *)
Definition draw_annotations (f : locals) : M unit :=
  let ymax :=
    if Rgt_dec (arr_max (y_experimental f)) (arr_max (y_control f))
    then arr_max (y_experimental f) else arr_max (y_control f) in
  emit (SetYlim (ymax * -0.1) (ymax * 1.1)) ;;
  emit (HLines 0 (Rmin (arr_min (x_control f)) (arr_min (x_experimental f)))
                 (Rmax (arr_max (x_control f)) (arr_max (x_experimental f)))) ;;
  emit (VLines (experimental_cvr f) 0 (arr_max (y_experimental f))) ;;
  emit (PlotPoint (experimental_cvr f) 0) ;;
  emit (Annotate (round4 (experimental_cvr f)) (experimental_cvr f) (ymax * -0.07)) ;;
  emit (VLines (control_cvr f) 0 (arr_max (y_control f))) ;;
  emit (PlotPoint (control_cvr f) 0) ;;
  emit (Annotate (round4 (control_cvr f)) (control_cvr f) (ymax * -0.07)) ;;
  emit Legend ;;
  emit (SetTitle "CVR: experimental vs control") ;;
  emit (YAxisVisible false) ;;
  emit (XAxisVisible false) ;;
  emit Show.

(** Lines 41-137. *)
Definition render (f : locals) (alpha : R) (tails : Z) : M unit :=
  emit (Subplots 12 6) ;;
  emit (Plot (x_control f) (y_control f) "control" "grey") ;;
  emit (Plot (x_experimental f) (y_experimental f) "experimental" "green") ;;
  draw_tails f alpha tails ;;
  draw_annotations f.

Definition plot_cvr_distributions
    (control experimental : loc) (alpha : R) (tails : Z) : M unit :=
  f <- statistics control experimental ;;
  render f alpha tails.

End Renderer.


(** ** A reference provider: the normal law over the reals *)

(** Density of the standard normal law. *)
Definition std_pdf (t : R) : R := exp (- (t * t) / 2) / sqrt (2 * PI).

Lemma std_pdf_continuity : continuity std_pdf.
Proof. unfold std_pdf. reg. Qed.

Lemma std_pdf_integrable (a b : R) : Riemann_integrable std_pdf a b.
Proof.
  destruct (Rle_dec a b) as [Hab | Hab].
  - apply continuity_implies_RiemannInt;
      [exact Hab | intros; apply std_pdf_continuity].
  - apply RiemannInt_P1, continuity_implies_RiemannInt;
      [lra | intros; apply std_pdf_continuity].
Qed.

(** Its distribution function, one half plus the mass between 0 and [x]. *)
Definition std_cdf (x : R) : R := 1 / 2 + RiemannInt (std_pdf_integrable 0 x).

(** Its quantile function: a point where the distribution function takes
    the value [q]. *)
Definition std_ppf (q : R) : R :=
  epsilon (inhabits 0) (fun z => std_cdf z = q).

(** Modelled from the spec: the normal-distribution provider, which is
    [scipy.stats.norm] in the source and not part of the repository.  It
    exposes density and quantile evaluation parameterised by mean and
    standard deviation, and a quantile request for a probability outside
    the open interval (0,1) fails with [DomainError]. *)
Definition normal : norm_provider := {|
  pdf := fun loc scale x => std_pdf ((x - loc) / scale) / scale;
  ppf := fun loc scale q =>
    if Rlt_dec 0 q then
      if Rlt_dec q 1 then Ok (loc + scale * std_ppf q) else Err DomainError
    else Err DomainError
|}.

(** The contract the specification asks of a quantile provider. *)
Definition rejects_outside_unit_interval (norm : norm_provider) : Prop :=
  forall loc scale q,
    (0 < q < 1 -> exists v, ppf norm loc scale q = Ok v) /\
    (~ 0 < q < 1 -> ppf norm loc scale q = Err DomainError).

(** ** Observations of a run *)

Definition outcome {A} (m : M A) (w : world) : result A := fst (m w).

Definition exec {A} (m : M A) (w : world) : world := snd (m w).

(** The world after some more drawing calls. *)
Definition extend (w : world) (cs : list plot_call) : world :=
  {| heap := heap w; canvas := canvas w ++ cs |}.

(** The drawing calls a run adds to the log. *)
Definition drawn {A} (m : M A) (w : world) : list plot_call :=
  skipn (length (canvas w)) (canvas (exec m w)).

(** The calls issued before the y-limits are set (line 94): the two curves
    and the tail section. *)
Fixpoint before_ylim (cs : list plot_call) : list plot_call :=
  match cs with
  | [] => []
  | SetYlim _ _ :: _ => []
  | c :: rest => c :: before_ylim rest
  end.

Definition vlines_at (cs : list plot_call) : list R :=
  flat_map (fun c => match c with VLines x _ _ => [x] | _ => [] end) cs.

(** Positions of the dashed markers of the tail section, in drawing order. *)
Definition critical_values (cs : list plot_call) : list R :=
  vlines_at (before_ylim cs).

(** The shaded regions: for each [fill_between], the abscissae and the mask
    selecting the shaded ones. *)
Definition shaded (cs : list plot_call) : list (list R * list bool) :=
  flat_map (fun c => match c with
                     | FillBetween xs _ _ m => [(xs, m)]
                     | _ => []
                     end) cs.

(** [appends m r cs]: whatever the world, [m] ends with [r] after adding
    exactly the calls [cs] to the log, and touches nothing else. *)
Definition appends {A} (m : M A) (r : result A) (cs : list plot_call) : Prop :=
  forall w, m w = (r, extend w cs).

(** ** The monad's laws of motion *)

Lemma extend_nil w : extend w [] = w.
Proof. destruct w as [h c]. unfold extend. simpl. now rewrite app_nil_r. Qed.

Lemma extend_extend w cs cs' : extend (extend w cs) cs' = extend w (cs ++ cs').
Proof. unfold extend. simpl. now rewrite app_assoc. Qed.

Lemma heap_extend w cs : heap (extend w cs) = heap w.
Proof. reflexivity. Qed.

Lemma canvas_extend w cs : canvas (extend w cs) = canvas w ++ cs.
Proof. reflexivity. Qed.

Lemma skipn_extend w cs : skipn (length (canvas w)) (canvas (extend w cs)) = cs.
Proof.
  rewrite canvas_extend. induction (canvas w) as [| c l IH]; simpl; auto.
Qed.

Lemma appends_ret {A} (a : A) : appends (ret a) (Ok a) [].
Proof. intro w. unfold ret. now rewrite extend_nil. Qed.

Lemma appends_lift {A} (r : result A) : appends (lift r) r [].
Proof. intro w. unfold lift. now rewrite extend_nil. Qed.

Lemma appends_emit c : appends (emit c) (Ok tt) [c].
Proof. intro w. reflexivity. Qed.

Lemma appends_bind_ok {A B} (m : M A) (k : A -> M B) a cs r cs' :
  appends m (Ok a) cs -> appends (k a) r cs' -> appends (bind m k) r (cs ++ cs').
Proof.
  intros Hm Hk w. unfold bind. rewrite Hm, Hk. now rewrite extend_extend.
Qed.

Lemma appends_bind_err {A B} (m : M A) (k : A -> M B) e cs :
  appends m (Err e) cs -> appends (bind m k) (Err e) cs.
Proof. intros Hm w. unfold bind. now rewrite Hm. Qed.

Lemma appends_eq {A} (m : M A) r cs cs' :
  appends m r cs -> cs = cs' -> appends m r cs'.
Proof. now intros H <-. Qed.

Lemma appends_outcome {A} (m : M A) r cs w : appends m r cs -> outcome m w = r.
Proof. intro H. unfold outcome. now rewrite H. Qed.

Lemma appends_drawn {A} (m : M A) r cs w : appends m r cs -> drawn m w = cs.
Proof. intro H. unfold drawn, exec. rewrite H. apply skipn_extend. Qed.

Create HintDb run.
#[local] Hint Resolve appends_ret appends_lift appends_emit : run.

Ltac run_ok := eapply appends_bind_ok; [solve [eauto with run] |].
Ltac run_all := eapply appends_eq; [repeat run_ok; eauto with run | reflexivity].

(** ** Basic facts on the numeric helpers *)

Lemma length_nonempty {A} (l : list A) : l <> [] -> Nat.eqb (length l) 0 = false.
Proof. destruct l; [congruence | reflexivity]. Qed.

Lemma INR_length_nonzero {A} (l : list A) : l <> [] -> INR (length l) <> 0.
Proof.
  intro H. apply not_0_INR. destruct l; [congruence | discriminate].
Qed.

Lemma py_div_nonempty {A} x (l : list A) :
  l <> [] -> py_div x (length l) = Ok (x / INR (length l)).
Proof. intro H. unfold py_div. now rewrite length_nonempty. Qed.

Lemma length_linspace a b n : length (linspace a b n) = n.
Proof. unfold linspace. now rewrite length_map, length_seq. Qed.

Lemma nth_linspace a b n i :
  (i < n)%nat ->
  nth i (linspace a b n) 0 = a + INR i * ((b - a) / INR (n - 1)).
Proof.
  intro Hi. unfold linspace.
  set (point := fun j : nat => a + INR j * ((b - a) / INR (n - 1))).
  rewrite nth_indep with (d' := point 0%nat)
    by now rewrite length_map, length_seq.
  rewrite map_nth, seq_nth by exact Hi. reflexivity.
Qed.

Lemma array_sum_all (v : Z) (l : list Z) :
  Forall (eq v) l -> array_sum l = (v * Z.of_nat (length l))%Z.
Proof.
  induction 1 as [| x l Hx _ IH]; [simpl; lia |].
  subst x. change (array_sum (v :: l)) with (v + array_sum l)%Z.
  rewrite IH. simpl length. lia.
Qed.

Lemma mean_of_all_ones l : l <> [] -> Forall (eq 1%Z) l -> mean_of l = 1.
Proof.
  intros Hne Hall. unfold mean_of. rewrite (array_sum_all 1 l Hall).
  rewrite Z.mul_1_l, <- INR_IZR_INZ. field. now apply INR_length_nonzero.
Qed.

Lemma mean_of_all_zeros l : Forall (eq 0%Z) l -> mean_of l = 0.
Proof.
  intros Hall. unfold mean_of. rewrite (array_sum_all 0 l Hall).
  rewrite Z.mul_0_l. unfold Rdiv. apply Rmult_0_l.
Qed.

Lemma array_sum_Permutation l l' : Permutation l l' -> array_sum l = array_sum l'.
Proof.
  induction 1; simpl; lia.
Qed.

(** ** How each part of the function runs *)

Section Runs.

Variable norm : norm_provider.

(** The frame the function holds after line 39, written from the contents
    of the two arrays. *)
Definition frame_of (cs es : list Z) : locals :=
  let rate_c := mean_of cs in
  let rate_e := mean_of es in
  let sd_c := sqrt ((1 / INR (length cs) + 1 / INR (length es)) * rate_c * (1 - rate_c)) in
  let sd_e := sqrt (1 / INR (length es) * rate_e * (1 - rate_e)) in
  let xs_c := linspace (rate_c - 4 * sd_c) (rate_c + 4 * sd_c) 1000 in
  let xs_e := linspace (rate_e - 4 * sd_e) (rate_e + 4 * sd_e) 1000 in
  {| control_trials := length cs;
     experimental_trials := length es;
     control_cvr := rate_c;
     experimental_cvr := rate_e;
     population_std := sd_c;
     experimental_std := sd_e;
     x_control := xs_c;
     x_experimental := xs_e;
     y_control := map (pdf norm rate_c sd_c) xs_c;
     y_experimental := map (pdf norm rate_e sd_e) xs_e |}.

Lemma statistics_nonempty control experimental w :
  heap w control <> [] -> heap w experimental <> [] ->
  statistics norm control experimental w
  = (Ok (frame_of (heap w control) (heap w experimental)), w).
Proof.
  intros Hc He.
  cbv beta iota delta [statistics bind len mean lift ret].
  rewrite (py_div_nonempty 1 _ Hc), (py_div_nonempty 1 _ He).
  reflexivity.
Qed.

Lemma statistics_empty control experimental w :
  heap w control = [] \/ heap w experimental = [] ->
  statistics norm control experimental w = (Err ZeroDivisionError, w).
Proof.
  intros H.
  cbv beta iota delta [statistics bind len mean lift ret].
  destruct (heap w control) as [| c cs] eqn:Hc.
  - reflexivity.
  - destruct H as [H | H]; [discriminate |].
    rewrite (py_div_nonempty 1 (c :: cs)) by discriminate.
    rewrite H. reflexivity.
Qed.

(** The frame depends on each array through its length and its sum. *)
Lemma frame_of_count_and_sum cs es cs' es' :
  length cs = length cs' -> array_sum cs = array_sum cs' ->
  length es = length es' -> array_sum es = array_sum es' ->
  frame_of cs es = frame_of cs' es'.
Proof.
  intros Hlc Hsc Hle Hse. unfold frame_of, mean_of.
  now rewrite Hlc, Hsc, Hle, Hse.
Qed.

Lemma statistics_count_and_sum c1 e1 w1 c2 e2 w2 :
  length (heap w1 c1) = length (heap w2 c2) ->
  array_sum (heap w1 c1) = array_sum (heap w2 c2) ->
  length (heap w1 e1) = length (heap w2 e2) ->
  array_sum (heap w1 e1) = array_sum (heap w2 e2) ->
  outcome (statistics norm c1 e1) w1 = outcome (statistics norm c2 e2) w2.
Proof.
  intros Hlc Hsc Hle Hse. unfold outcome.
  destruct (heap w1 c1) as [| x xs] eqn:Hc1.
  - assert (Hc2 : heap w2 c2 = []) by (destruct (heap w2 c2); [auto | discriminate]).
    rewrite !statistics_empty by auto. reflexivity.
  - destruct (heap w1 e1) as [| y ys] eqn:He1.
    + assert (He2 : heap w2 e2 = []) by (destruct (heap w2 e2); [auto | discriminate]).
      rewrite !statistics_empty by auto. reflexivity.
    + assert (Hc2 : heap w2 c2 <> []) by (destruct (heap w2 c2); [discriminate | congruence]).
      assert (He2 : heap w2 e2 <> []) by (destruct (heap w2 e2); [discriminate | congruence]).
      rewrite !statistics_nonempty by congruence.
      simpl. f_equal. rewrite Hc1, He1.
      now apply frame_of_count_and_sum.
Qed.

End Runs.

Section Drawing.

Variable norm : norm_provider.

(** A shaded tail of the control curve with its dashed marker at [c]. *)
Definition tail_at (f : locals) (m : list bool) (c : R) : list plot_call :=
  [ FillBetween (x_control f) 0
      (map (pdf norm (control_cvr f) (population_std f)) (x_control f)) m;
    VLines c 0 (pdf norm (control_cvr f) (population_std f) c) ].

Definition curves (f : locals) : list plot_call :=
  [ Subplots 12 6;
    Plot (x_control f) (y_control f) "control" "grey";
    Plot (x_experimental f) (y_experimental f) "experimental" "green" ].

Lemma draw_tails_two f alpha hi lo :
  ppf norm (control_cvr f) (population_std f) (1 - alpha / 2) = Ok hi ->
  ppf norm (control_cvr f) (population_std f) (alpha / 2) = Ok lo ->
  appends (draw_tails norm f alpha 2) (Ok tt)
          (tail_at f (mask_ge (x_control f) hi) hi
           ++ tail_at f (mask_le (x_control f) lo) lo).
Proof.
  intros Hhi Hlo. unfold draw_tails. rewrite Z.eqb_refl, !Hhi, !Hlo. run_all.
Qed.

Lemma draw_tails_two_upper_fails f alpha e :
  ppf norm (control_cvr f) (population_std f) (1 - alpha / 2) = Err e ->
  appends (draw_tails norm f alpha 2) (Err e) [].
Proof.
  intros Hhi. unfold draw_tails. rewrite Z.eqb_refl, !Hhi.
  apply appends_bind_err. auto with run.
Qed.

Lemma draw_tails_two_lower_fails f alpha hi e :
  ppf norm (control_cvr f) (population_std f) (1 - alpha / 2) = Ok hi ->
  ppf norm (control_cvr f) (population_std f) (alpha / 2) = Err e ->
  appends (draw_tails norm f alpha 2) (Err e)
          (tail_at f (mask_ge (x_control f) hi) hi).
Proof.
  intros Hhi Hlo. unfold draw_tails. rewrite Z.eqb_refl, !Hhi, !Hlo.
  eapply appends_eq.
  - do 5 run_ok. apply appends_bind_err. auto with run.
  - reflexivity.
Qed.

Lemma draw_tails_one f alpha tails c :
  tails <> 2%Z ->
  ppf norm (control_cvr f) (population_std f) (1 - alpha) = Ok c ->
  appends (draw_tails norm f alpha tails) (Ok tt)
          (tail_at f (mask_ge (x_control f) c) c).
Proof.
  intros Ht Hc. unfold draw_tails.
  rewrite (proj2 (Z.eqb_neq tails 2) Ht), !Hc. run_all.
Qed.

Lemma draw_tails_one_fails f alpha tails e :
  tails <> 2%Z ->
  ppf norm (control_cvr f) (population_std f) (1 - alpha) = Err e ->
  appends (draw_tails norm f alpha tails) (Err e) [].
Proof.
  intros Ht Hc. unfold draw_tails.
  rewrite (proj2 (Z.eqb_neq tails 2) Ht), !Hc.
  apply appends_bind_err. auto with run.
Qed.

(** The tail section always ends, with a result and a list of calls that
    do not depend on the world. *)
Lemma draw_tails_total f alpha tails :
  exists r cs, appends (draw_tails norm f alpha tails) r cs.
Proof.
  destruct (Z.eq_dec tails 2) as [-> | Ht].
  - destruct (ppf norm (control_cvr f) (population_std f) (1 - alpha / 2))
      as [hi | e] eqn:Hhi.
    + destruct (ppf norm (control_cvr f) (population_std f) (alpha / 2))
        as [lo | e] eqn:Hlo.
      * do 2 eexists. eapply draw_tails_two; eassumption.
      * do 2 eexists. eapply draw_tails_two_lower_fails; eassumption.
    + do 2 eexists. eapply draw_tails_two_upper_fails; eassumption.
  - destruct (ppf norm (control_cvr f) (population_std f) (1 - alpha))
      as [c | e] eqn:Hc.
    + do 2 eexists. eapply draw_tails_one; eassumption.
    + do 2 eexists. eapply draw_tails_one_fails; eassumption.
Qed.

(** The annotations never fail; they start by setting the y-limits and
    shade nothing. *)
Lemma draw_annotations_appends f :
  exists cs, appends (draw_annotations f) (Ok tt) cs
             /\ before_ylim cs = [] /\ shaded cs = [].
Proof.
  eexists. split; [unfold draw_annotations; run_all |].
  split; reflexivity.
Qed.

Lemma render_ok f alpha tails ts :
  appends (draw_tails norm f alpha tails) (Ok tt) ts ->
  exists an, appends (render norm f alpha tails) (Ok tt) (curves f ++ ts ++ an)
             /\ before_ylim an = [] /\ shaded an = [].
Proof.
  intros Ht. destruct (draw_annotations_appends f) as (an & Han & Hb & Hs).
  exists an. split; [| now split].
  unfold render. eapply appends_eq.
  - do 3 run_ok. eapply appends_bind_ok; [exact Ht | exact Han].
  - reflexivity.
Qed.

Lemma render_err f alpha tails e ts :
  appends (draw_tails norm f alpha tails) (Err e) ts ->
  appends (render norm f alpha tails) (Err e) (curves f ++ ts).
Proof.
  intros Ht. unfold render. eapply appends_eq.
  - do 3 run_ok. eapply appends_bind_err. exact Ht.
  - reflexivity.
Qed.

Lemma render_total f alpha tails :
  exists r cs, appends (render norm f alpha tails) r cs.
Proof.
  destruct (draw_tails_total f alpha tails) as ([[] | e] & ts & Ht).
  - destruct (render_ok _ _ _ _ Ht) as (an & Han & _). eauto.
  - eauto using render_err.
Qed.

Lemma plot_nonempty control experimental alpha tails w :
  heap w control <> [] -> heap w experimental <> [] ->
  plot_cvr_distributions norm control experimental alpha tails w
  = render norm (frame_of norm (heap w control) (heap w experimental)) alpha tails w.
Proof.
  intros Hc He. unfold plot_cvr_distributions, bind.
  now rewrite statistics_nonempty.
Qed.

Lemma plot_empty control experimental alpha tails w :
  heap w control = [] \/ heap w experimental = [] ->
  plot_cvr_distributions norm control experimental alpha tails w
  = (Err ZeroDivisionError, w).
Proof.
  intros H. unfold plot_cvr_distributions, bind.
  now rewrite statistics_empty.
Qed.

(** Whatever the inputs, the call ends; it leaves the arrays as they were
    and only adds calls to the log. *)
Lemma plot_total control experimental alpha tails w :
  exists r cs,
    plot_cvr_distributions norm control experimental alpha tails w = (r, extend w cs).
Proof.
  destruct (heap w control) as [| c cs] eqn:Hc.
  - exists (Err ZeroDivisionError), []. rewrite extend_nil. apply plot_empty; auto.
  - destruct (heap w experimental) as [| x xs] eqn:He.
    + exists (Err ZeroDivisionError), []. rewrite extend_nil. apply plot_empty; auto.
    + rewrite plot_nonempty by congruence.
      destruct (render_total (frame_of norm (heap w control) (heap w experimental))
                             alpha tails) as (r & l & H).
      exists r, l. apply H.
Qed.

(** Two calls whose frames agree end alike and draw alike. *)
Lemma plot_same_statistics c1 e1 w1 c2 e2 w2 alpha tails :
  outcome (statistics norm c1 e1) w1 = outcome (statistics norm c2 e2) w2 ->
  outcome (plot_cvr_distributions norm c1 e1 alpha tails) w1
  = outcome (plot_cvr_distributions norm c2 e2 alpha tails) w2
  /\ drawn (plot_cvr_distributions norm c1 e1 alpha tails) w1
     = drawn (plot_cvr_distributions norm c2 e2 alpha tails) w2.
Proof.
  unfold outcome, drawn, exec, plot_cvr_distributions, bind.
  assert (Hs : forall c e w, snd (statistics norm c e w) = w).
  { intros c e w. destruct (heap w c) eqn:Hc; [now rewrite statistics_empty by auto |].
    destruct (heap w e) eqn:He; [now rewrite statistics_empty by auto |].
    now rewrite statistics_nonempty by congruence. }
  pose proof (Hs c1 e1 w1) as H1. pose proof (Hs c2 e2 w2) as H2.
  destruct (statistics norm c1 e1 w1) as [r1 w1'].
  destruct (statistics norm c2 e2 w2) as [r2 w2'].
  simpl in *. intros <-. subst w1' w2'.
  destruct r1 as [f | e].
  - destruct (render_total f alpha tails) as (r & cs & H).
    rewrite !H. cbn [fst snd]. now rewrite !skipn_extend.
  - simpl. split; [reflexivity |].
    now rewrite !skipn_all.
Qed.

End Drawing.

(** ** The reference provider meets the contract *)

Lemma normal_ppf_inside loc scale q :
  0 < q < 1 -> ppf normal loc scale q = Ok (loc + scale * std_ppf q).
Proof.
  intros [H0 H1]. simpl.
  destruct (Rlt_dec 0 q); [| contradiction].
  destruct (Rlt_dec q 1); [reflexivity | contradiction].
Qed.

Lemma normal_ppf_outside loc scale q :
  ~ 0 < q < 1 -> ppf normal loc scale q = Err DomainError.
Proof.
  intros H. simpl.
  destruct (Rlt_dec 0 q); [| reflexivity].
  destruct (Rlt_dec q 1); [| reflexivity].
  exfalso. apply H. split; assumption.
Qed.

Lemma normal_rejects_outside_unit_interval : rejects_outside_unit_interval normal.
Proof.
  intros loc scale q. split.
  - intros H. eexists. now apply normal_ppf_inside.
  - apply normal_ppf_outside.
Qed.

(** A world for concrete calls: the control array at address 0, the
    experimental array at address 1, nothing drawn yet. *)
Definition sample_world (cs es : list Z) : world :=
  {| heap := fun a => match a with O => cs | S _ => es end; canvas := [] |}.

(** ** The documented call *)

(** The call of the specification's test list: rates 0.5 and 0.75, and a
    chart drawn without raising. *)
Example documented_call :
  let w := sample_world [1; 0; 1; 0]%Z [1; 1; 1; 0]%Z in
  (exists f, statistics normal 0 1 w = (Ok f, w)
             /\ control_cvr f = 0.5 /\ experimental_cvr f = 0.75)
  /\ outcome (plot_cvr_distributions normal 0 1 0.05 2) w = Ok tt.
Proof.
  intros w. split.
  - exists (frame_of normal (heap w 0) (heap w 1)).
    split; [apply statistics_nonempty; discriminate |].
    split; unfold frame_of, mean_of; simpl; lra.
  - unfold outcome. rewrite plot_nonempty by discriminate.
    set (f := frame_of normal (heap w 0) (heap w 1)).
    destruct (render_ok normal f 0.05 2 _
                (draw_tails_two normal f 0.05 _ _
                   (normal_ppf_inside _ _ (1 - 0.05 / 2) ltac:(lra))
                   (normal_ppf_inside _ _ (0.05 / 2) ltac:(lra))))
      as (an & Han & _).
    now rewrite Han.
Qed.

Example linspace_three : linspace 0 1 3 = [0 + 0 * ((1 - 0) / (1 + 1));
                                           0 + 1 * ((1 - 0) / (1 + 1));
                                           0 + (1 + 1) * ((1 - 0) / (1 + 1))].
Proof. reflexivity. Qed.

(** ** Empty samples *)

(** C1, as stated, fails: with an empty control array the call ends with
    [ZeroDivisionError], raised by [1 / control_trials] on line 31, and not
    with [EmptySampleError]. *)
Lemma empty_control_is_not_EmptySampleError :
  outcome (plot_cvr_distributions normal 0 1 0.05 2)
          (sample_world [] [1; 1; 1; 0]%Z) = Err ZeroDivisionError
  /\ outcome (plot_cvr_distributions normal 0 1 0.05 2)
             (sample_world [] [1; 1; 1; 0]%Z) <> Err EmptySampleError.
Proof.
  unfold outcome. rewrite plot_empty by (left; reflexivity).
  split; [reflexivity | discriminate].
Qed.

(** C1, amended: when the control array or the experimental array is empty
    the call raises [ZeroDivisionError], and it does so before any drawing
    call: the world it leaves is the world it found. *)
Theorem empty_sample_raises_before_plotting
    (norm : norm_provider) (control experimental : loc) (alpha : R) (tails : Z)
    (w : world) :
  heap w control = [] \/ heap w experimental = [] ->
  outcome (plot_cvr_distributions norm control experimental alpha tails) w
  = Err ZeroDivisionError
  /\ exec (plot_cvr_distributions norm control experimental alpha tails) w = w
  /\ drawn (plot_cvr_distributions norm control experimental alpha tails) w = [].
Proof.
  intros H. unfold outcome, drawn, exec. rewrite plot_empty by exact H.
  repeat split. simpl. apply skipn_all.
Qed.

Lemma empty_sample_raises_before_plotting_witness :
  (heap (sample_world [1; 0]%Z []) 0%nat = []
   \/ heap (sample_world [1; 0]%Z []) 1%nat = [])
  /\ outcome (plot_cvr_distributions normal 0 1 0.05 1) (sample_world [1; 0]%Z [])
     = Err ZeroDivisionError
  /\ exec (plot_cvr_distributions normal 0 1 0.05 1) (sample_world [1; 0]%Z [])
     = sample_world [1; 0]%Z []
  /\ drawn (plot_cvr_distributions normal 0 1 0.05 1) (sample_world [1; 0]%Z []) = [].
Proof.
  split.
  - right. reflexivity.
  - apply (empty_sample_raises_before_plotting normal 0 1 0.05 1
             (sample_world [1; 0]%Z [])).
    right. reflexivity.
Defined.

(** ** Significance level outside the unit interval *)

(** [after r k]: the first failure of two steps in sequence. *)
Definition after {A B} (r : result A) (k : result B) : result B :=
  match r with
  | Ok _ => k
  | Err e => Err e
  end.

Section Alpha.

Variable norm : norm_provider.

(** The drawing ends as the quantile requests of its tail section end. *)
Lemma render_two_tailed_outcome f alpha w :
  outcome (render norm f alpha 2) w
  = after (ppf norm (control_cvr f) (population_std f) (1 - alpha / 2))
          (after (ppf norm (control_cvr f) (population_std f) (alpha / 2)) (Ok tt)).
Proof.
  destruct (ppf norm (control_cvr f) (population_std f) (1 - alpha / 2))
    as [hi | e] eqn:Hhi.
  - destruct (ppf norm (control_cvr f) (population_std f) (alpha / 2))
      as [lo | e] eqn:Hlo.
    + destruct (render_ok norm f alpha 2 _ (draw_tails_two norm f alpha hi lo Hhi Hlo))
        as (an & Han & _).
      eapply appends_outcome. exact Han.
    + eapply appends_outcome, render_err, draw_tails_two_lower_fails; eassumption.
  - eapply appends_outcome, render_err, draw_tails_two_upper_fails; eassumption.
Qed.

Lemma render_one_tailed_outcome f alpha tails w :
  tails <> 2%Z ->
  outcome (render norm f alpha tails) w
  = after (ppf norm (control_cvr f) (population_std f) (1 - alpha)) (Ok tt).
Proof.
  intros Ht.
  destruct (ppf norm (control_cvr f) (population_std f) (1 - alpha))
    as [c | e] eqn:Hc.
  - destruct (render_ok norm f alpha tails _ (draw_tails_one norm f alpha tails c Ht Hc))
      as (an & Han & _).
    eapply appends_outcome. exact Han.
  - eapply appends_outcome, render_err, draw_tails_one_fails; eassumption.
Qed.

Hypothesis norm_rejects : rejects_outside_unit_interval norm.

Lemma after_inside {B} loc scale q (k : result B) :
  0 < q < 1 -> after (ppf norm loc scale q) k = k.
Proof.
  intros Hq. destruct (proj1 (norm_rejects loc scale q) Hq) as [v ->]. reflexivity.
Qed.

Lemma after_outside {B} loc scale q (k : result B) :
  ~ 0 < q < 1 -> after (ppf norm loc scale q) k = Err DomainError.
Proof.
  intros Hq. now rewrite (proj2 (norm_rejects loc scale q) Hq).
Qed.

End Alpha.

(** C2, as stated, fails: with [alpha = 1] and [tails = 2] the two quantile
    requests are both at probability 1/2, which the provider accepts, and
    the call ends normally. *)
Lemma alpha_one_two_tailed_is_not_DomainError :
  outcome (plot_cvr_distributions normal 0 1 1 2)
          (sample_world [1; 0; 1; 0]%Z [1; 1; 1; 0]%Z) = Ok tt
  /\ outcome (plot_cvr_distributions normal 0 1 1 2)
             (sample_world [1; 0; 1; 0]%Z [1; 1; 1; 0]%Z) <> Err DomainError.
Proof.
  set (w := sample_world [1; 0; 1; 0]%Z [1; 1; 1; 0]%Z).
  assert (H : outcome (plot_cvr_distributions normal 0 1 1 2) w = Ok tt).
  { unfold outcome. rewrite plot_nonempty by discriminate.
    apply (eq_trans (render_two_tailed_outcome normal _ 1 w)).
    rewrite !(after_inside normal normal_rejects_outside_unit_interval) by lra.
    reflexivity. }
  split; [exact H | rewrite H; discriminate].
Qed.

(** C2, amended: the function does not check [alpha].  On non-empty
    samples, over a provider that answers [DomainError] to every
    probability outside (0,1) and a value to every probability inside:
    when [tails] is not 2 and [alpha <= 0] or [alpha >= 1], the call fails
    with [DomainError]; when [tails = 2] it does so for [alpha <= 0] or
    [alpha >= 2], but not for [1 <= alpha < 2], where the two requested
    probabilities [alpha/2] and [1 - alpha/2] both lie inside (0,1). *)
Theorem alpha_out_of_range_raises_DomainError
    (norm : norm_provider) (control experimental : loc) (alpha : R) (tails : Z)
    (w : world) :
  rejects_outside_unit_interval norm ->
  heap w control <> [] -> heap w experimental <> [] ->
  let call := plot_cvr_distributions norm control experimental alpha tails in
  (tails <> 2%Z -> alpha <= 0 \/ 1 <= alpha -> outcome call w = Err DomainError)
  /\ (tails = 2%Z -> alpha <= 0 \/ 2 <= alpha -> outcome call w = Err DomainError)
  /\ (tails = 2%Z -> 1 <= alpha < 2 -> outcome call w <> Err DomainError).
Proof.
  intros Hn Hc He call.
  set (f := frame_of norm (heap w control) (heap w experimental)).
  assert (Hcall : outcome call w = outcome (render norm f alpha tails) w).
  { unfold outcome, call. now rewrite plot_nonempty. }
  rewrite Hcall. split; [| split].
  - intros Ht Ha. rewrite (render_one_tailed_outcome norm f alpha tails w Ht).
    apply (after_outside norm Hn). lra.
  - intros -> Ha. rewrite render_two_tailed_outcome.
    apply (after_outside norm Hn). lra.
  - intros -> Ha. rewrite render_two_tailed_outcome.
    rewrite !(after_inside norm Hn) by lra. discriminate.
Qed.

Lemma alpha_out_of_range_raises_DomainError_witness :
  let w := sample_world [1; 0; 1; 0]%Z [1; 1; 1; 0]%Z in
  rejects_outside_unit_interval normal
  /\ heap w 0 <> [] /\ heap w 1 <> []
  /\ outcome (plot_cvr_distributions normal 0 1 1 1) w = Err DomainError
  /\ outcome (plot_cvr_distributions normal 0 1 0 2) w = Err DomainError
  /\ outcome (plot_cvr_distributions normal 0 1 1 2) w <> Err DomainError.
Proof.
  intros w.
  pose proof normal_rejects_outside_unit_interval as Hn.
  assert (Hc : heap w 0 <> []) by discriminate.
  assert (He : heap w 1 <> []) by discriminate.
  split; [exact Hn |]. split; [exact Hc |]. split; [exact He |].
  split; [| split].
  - apply (proj1 (alpha_out_of_range_raises_DomainError normal 0 1 1 1 w Hn Hc He));
      [discriminate | lra].
  - apply (proj1 (proj2 (alpha_out_of_range_raises_DomainError
                           normal 0 1 0 2 w Hn Hc He)));
      [reflexivity | lra].
  - apply (proj2 (proj2 (alpha_out_of_range_raises_DomainError
                           normal 0 1 1 2 w Hn Hc He)));
      [reflexivity | lra].
Defined.

(** ** Standard errors *)

(** C3: on non-empty samples the function computes the control standard
    error as sqrt((1/n_c + 1/n_e) * rate_c * (1 - rate_c)), with [rate_c]
    the mean of the control sample.  The experimental sample enters through
    its length only: another call whose experimental array has the same
    length, whatever its entries, computes the same value. *)
Theorem population_std_formula
    (norm : norm_provider) (control experimental : loc) (w : world) :
  heap w control <> [] -> heap w experimental <> [] ->
  let n_c := INR (length (heap w control)) in
  let n_e := INR (length (heap w experimental)) in
  let rate_c := IZR (array_sum (heap w control)) / n_c in
  exists f,
    statistics norm control experimental w = (Ok f, w)
    /\ control_cvr f = rate_c
    /\ population_std f = sqrt ((1 / n_c + 1 / n_e) * rate_c * (1 - rate_c))
    /\ forall experimental' w',
         heap w' control = heap w control ->
         length (heap w' experimental') = length (heap w experimental) ->
         exists f', statistics norm control experimental' w' = (Ok f', w')
                    /\ population_std f' = population_std f.
Proof.
  intros Hc He n_c n_e rate_c.
  exists (frame_of norm (heap w control) (heap w experimental)).
  split; [now apply statistics_nonempty |].
  split; [reflexivity |].
  split; [reflexivity |].
  intros experimental' w' Hc' Hl.
  exists (frame_of norm (heap w' control) (heap w' experimental')).
  split.
  - apply statistics_nonempty; [congruence |].
    intros Hnil. rewrite Hnil in Hl. destruct (heap w experimental); [auto | discriminate].
  - simpl. now rewrite Hc', Hl.
Qed.

Lemma population_std_formula_witness :
  let w := sample_world [1; 0; 1; 0]%Z [1; 1; 1; 0]%Z in
  heap w 0 <> [] /\ heap w 1 <> []
  /\ exists f,
       statistics normal 0 1 w = (Ok f, w)
       /\ control_cvr f = IZR 2 / INR 4
       /\ population_std f
          = sqrt ((1 / INR 4 + 1 / INR 4) * (IZR 2 / INR 4) * (1 - IZR 2 / INR 4)).
Proof.
  intros w.
  split; [discriminate |]. split; [discriminate |].
  destruct (population_std_formula normal 0 1 w ltac:(discriminate) ltac:(discriminate))
    as (f & Hrun & Hrate & Hsd & _).
  exists f. split; [exact Hrun |]. split; [exact Hrate | exact Hsd].
Defined.

(** C4: on non-empty samples the function computes the experimental
    standard error as sqrt((1/n_e) * rate_e * (1 - rate_e)), from the
    experimental sample alone: another call with the same experimental
    array and any non-empty control array computes the same value. *)
Theorem experimental_std_formula
    (norm : norm_provider) (control experimental : loc) (w : world) :
  heap w control <> [] -> heap w experimental <> [] ->
  let n_e := INR (length (heap w experimental)) in
  let rate_e := IZR (array_sum (heap w experimental)) / n_e in
  exists f,
    statistics norm control experimental w = (Ok f, w)
    /\ experimental_cvr f = rate_e
    /\ experimental_std f = sqrt (1 / n_e * rate_e * (1 - rate_e))
    /\ forall control' w',
         heap w' control' <> [] ->
         heap w' experimental = heap w experimental ->
         exists f', statistics norm control' experimental w' = (Ok f', w')
                    /\ experimental_std f' = experimental_std f.
Proof.
  intros Hc He n_e rate_e.
  exists (frame_of norm (heap w control) (heap w experimental)).
  split; [now apply statistics_nonempty |].
  split; [reflexivity |].
  split; [reflexivity |].
  intros control' w' Hc' He'.
  exists (frame_of norm (heap w' control') (heap w' experimental)).
  split.
  - apply statistics_nonempty; congruence.
  - simpl. now rewrite He'.
Qed.

Lemma experimental_std_formula_witness :
  let w := sample_world [1; 0; 1; 0]%Z [1; 1; 1; 0]%Z in
  heap w 0 <> [] /\ heap w 1 <> []
  /\ exists f,
       statistics normal 0 1 w = (Ok f, w)
       /\ experimental_cvr f = IZR 3 / INR 4
       /\ experimental_std f
          = sqrt (1 / INR 4 * (IZR 3 / INR 4) * (1 - IZR 3 / INR 4)).
Proof.
  intros w.
  split; [discriminate |]. split; [discriminate |].
  destruct (experimental_std_formula normal 0 1 w ltac:(discriminate) ltac:(discriminate))
    as (f & Hrun & Hrate & Hsd & _).
  exists f. split; [exact Hrun |]. split; [exact Hrate | exact Hsd].
Defined.

(** ** Degenerate samples *)

(** C6: on non-empty samples, a sample made of ones only has rate exactly 1
    and a sample made of zeros only has rate exactly 0; in both cases the
    arm's standard error is exactly 0, through the pooled formula for the
    control arm and through its own formula for the experimental arm. *)
Theorem constant_sample_rate_and_std
    (norm : norm_provider) (control experimental : loc) (w : world) :
  heap w control <> [] -> heap w experimental <> [] ->
  exists f,
    statistics norm control experimental w = (Ok f, w)
    /\ (Forall (eq 1%Z) (heap w control) ->
        control_cvr f = 1 /\ population_std f = 0)
    /\ (Forall (eq 0%Z) (heap w control) ->
        control_cvr f = 0 /\ population_std f = 0)
    /\ (Forall (eq 1%Z) (heap w experimental) ->
        experimental_cvr f = 1 /\ experimental_std f = 0)
    /\ (Forall (eq 0%Z) (heap w experimental) ->
        experimental_cvr f = 0 /\ experimental_std f = 0).
Proof.
  intros Hc He.
  exists (frame_of norm (heap w control) (heap w experimental)).
  split; [now apply statistics_nonempty |].
  simpl.
  assert (Hzero : forall k r, r = 1 \/ r = 0 -> sqrt (k * r * (1 - r)) = 0).
  { intros k r [-> | ->].
    - replace (k * 1 * (1 - 1)) with 0 by ring. apply sqrt_0.
    - replace (k * 0 * (1 - 0)) with 0 by ring. apply sqrt_0. }
  split; [| split; [| split]]; intros Hall.
  - pose proof (mean_of_all_ones _ Hc Hall) as Hm. split; [exact Hm | auto].
  - pose proof (mean_of_all_zeros _ Hall) as Hm. split; [exact Hm | auto].
  - pose proof (mean_of_all_ones _ He Hall) as Hm. split; [exact Hm | auto].
  - pose proof (mean_of_all_zeros _ Hall) as Hm. split; [exact Hm | auto].
Qed.

Lemma constant_sample_rate_and_std_witness :
  let w := sample_world [1; 1; 1]%Z [0; 0]%Z in
  heap w 0 <> [] /\ heap w 1 <> []
  /\ Forall (eq 1%Z) (heap w 0) /\ Forall (eq 0%Z) (heap w 1)
  /\ exists f,
       statistics normal 0 1 w = (Ok f, w)
       /\ (control_cvr f = 1 /\ population_std f = 0)
       /\ (experimental_cvr f = 0 /\ experimental_std f = 0).
Proof.
  intros w.
  assert (H1 : Forall (eq 1%Z) (heap w 0)) by (repeat constructor).
  assert (H0 : Forall (eq 0%Z) (heap w 1)) by (repeat constructor).
  split; [discriminate |]. split; [discriminate |].
  split; [exact H1 |]. split; [exact H0 |].
  destruct (constant_sample_rate_and_std normal 0 1 w
              ltac:(discriminate) ltac:(discriminate))
    as (f & Hrun & Hc1 & _ & _ & He0).
  exists f. split; [exact Hrun |]. split; [exact (Hc1 H1) | exact (He0 H0)].
Defined.

(** ** Abscissae and densities *)

(** [xs] is [n] points, the first at [lo], the last at [hi], any two
    neighbours the same distance apart. *)
Definition evenly_spaced (xs : list R) (lo hi : R) (n : nat) : Prop :=
  length xs = n
  /\ nth 0 xs 0 = lo
  /\ nth (n - 1) xs 0 = hi
  /\ forall i, (S i < n)%nat -> nth (S i) xs 0 - nth i xs 0 = (hi - lo) / INR (n - 1).

Lemma linspace_evenly_spaced a b n :
  (2 <= n)%nat -> evenly_spaced (linspace a b n) a b n.
Proof.
  intros Hn.
  assert (Hd : INR (n - 1) <> 0) by (apply not_0_INR; lia).
  split; [apply length_linspace |].
  split; [rewrite nth_linspace by lia; simpl INR; ring |].
  split; [rewrite nth_linspace by lia; field; exact Hd |].
  intros i Hi. rewrite !nth_linspace by lia. rewrite S_INR. field. exact Hd.
Qed.

(** C7: on non-empty samples each arm's density is evaluated at exactly
    1000 evenly spaced points, from the arm's mean minus four standard
    deviations to its mean plus four standard deviations.  The control arm
    uses [rate_c], the mean of the control sample, and [se_c], the pooled
    standard error; the experimental arm uses [rate_e], the mean of the
    experimental sample, and [se_e], its own standard error. *)
Theorem densities_on_1000_points
    (norm : norm_provider) (control experimental : loc) (w : world) :
  heap w control <> [] -> heap w experimental <> [] ->
  let n_c := INR (length (heap w control)) in
  let n_e := INR (length (heap w experimental)) in
  let rate_c := IZR (array_sum (heap w control)) / n_c in
  let rate_e := IZR (array_sum (heap w experimental)) / n_e in
  let se_c := sqrt ((1 / n_c + 1 / n_e) * rate_c * (1 - rate_c)) in
  let se_e := sqrt (1 / n_e * rate_e * (1 - rate_e)) in
  exists f,
    statistics norm control experimental w = (Ok f, w)
    /\ evenly_spaced (x_control f) (rate_c - 4 * se_c) (rate_c + 4 * se_c) 1000
    /\ y_control f = map (pdf norm rate_c se_c) (x_control f)
    /\ length (y_control f) = 1000%nat
    /\ evenly_spaced (x_experimental f) (rate_e - 4 * se_e) (rate_e + 4 * se_e) 1000
    /\ y_experimental f = map (pdf norm rate_e se_e) (x_experimental f)
    /\ length (y_experimental f) = 1000%nat
    /\ control_cvr f = rate_c /\ population_std f = se_c
    /\ experimental_cvr f = rate_e /\ experimental_std f = se_e.
Proof.
  intros Hc He n_c n_e rate_c rate_e se_c se_e.
  exists (frame_of norm (heap w control) (heap w experimental)).
  split; [now apply statistics_nonempty |].
  unfold frame_of.
  cbn [x_control y_control x_experimental y_experimental control_cvr
       experimental_cvr population_std experimental_std].
  fold (mean_of (heap w control)) in rate_c.
  repeat match goal with
         | |- _ /\ _ => split
         | |- evenly_spaced _ _ _ _ => apply linspace_evenly_spaced; lia
         | |- length (map _ _) = _ => rewrite length_map; apply length_linspace
         | |- _ = _ => reflexivity
         end.
Qed.

Lemma densities_on_1000_points_witness :
  let w := sample_world [1; 0; 1; 0]%Z [1; 1; 1; 0]%Z in
  let rate_c := IZR 2 / INR 4 in
  let rate_e := IZR 3 / INR 4 in
  let se_c := sqrt ((1 / INR 4 + 1 / INR 4) * rate_c * (1 - rate_c)) in
  let se_e := sqrt (1 / INR 4 * rate_e * (1 - rate_e)) in
  heap w 0 <> [] /\ heap w 1 <> []
  /\ exists f,
       statistics normal 0 1 w = (Ok f, w)
       /\ evenly_spaced (x_control f) (rate_c - 4 * se_c) (rate_c + 4 * se_c) 1000
       /\ length (y_control f) = 1000%nat
       /\ evenly_spaced (x_experimental f) (rate_e - 4 * se_e) (rate_e + 4 * se_e) 1000
       /\ length (y_experimental f) = 1000%nat.
Proof.
  intros w rate_c rate_e se_c se_e.
  split; [discriminate |]. split; [discriminate |].
  destruct (densities_on_1000_points normal 0 1 w ltac:(discriminate) ltac:(discriminate))
    as (f & Hrun & Hxc & _ & Hyc & Hxe & _ & Hye & _).
  exists f. split; [exact Hrun |]. split; [exact Hxc |]. split; [exact Hyc |].
  split; [exact Hxe | exact Hye].
Defined.

(** ** Critical values *)

Lemma observe_two_tails norm f m1 hi m2 lo an :
  before_ylim an = [] -> shaded an = [] ->
  critical_values (curves f ++ (tail_at norm f m1 hi ++ tail_at norm f m2 lo) ++ an)
  = [hi; lo]
  /\ shaded (curves f ++ (tail_at norm f m1 hi ++ tail_at norm f m2 lo) ++ an)
     = [(x_control f, m1); (x_control f, m2)].
Proof.
  intros Hb Hs. unfold shaded in Hs.
  unfold critical_values, shaded, curves, tail_at.
  cbn [app before_ylim flat_map]. rewrite Hb, Hs. split; reflexivity.
Qed.

Lemma observe_one_tail norm f m c an :
  before_ylim an = [] -> shaded an = [] ->
  critical_values (curves f ++ tail_at norm f m c ++ an) = [c]
  /\ shaded (curves f ++ tail_at norm f m c ++ an) = [(x_control f, m)].
Proof.
  intros Hb Hs. unfold shaded in Hs.
  unfold critical_values, shaded, curves, tail_at.
  cbn [app before_ylim flat_map]. rewrite Hb, Hs. split; reflexivity.
Qed.

(** C5: on non-empty samples, every quantile is requested from the control
    distribution, with mean [rate_c] and standard deviation [se_c].  When
    [tails = 2] the upper marker and shading threshold is its quantile at
    [1 - alpha/2] and the lower one its quantile at [alpha/2]; for every
    other value of [tails] there is one marker and threshold, its quantile
    at [1 - alpha]. *)
Theorem critical_values_from_control
    (norm : norm_provider) (control experimental : loc) (alpha : R) (tails : Z)
    (w : world) :
  heap w control <> [] -> heap w experimental <> [] ->
  let n_c := INR (length (heap w control)) in
  let n_e := INR (length (heap w experimental)) in
  let rate_c := IZR (array_sum (heap w control)) / n_c in
  let se_c := sqrt ((1 / n_c + 1 / n_e) * rate_c * (1 - rate_c)) in
  let xs := linspace (rate_c - 4 * se_c) (rate_c + 4 * se_c) 1000 in
  let call := plot_cvr_distributions norm control experimental alpha tails in
  (tails = 2%Z ->
   forall lower upper,
     ppf norm rate_c se_c (alpha / 2) = Ok lower ->
     ppf norm rate_c se_c (1 - alpha / 2) = Ok upper ->
     outcome call w = Ok tt
     /\ critical_values (drawn call w) = [upper; lower]
     /\ shaded (drawn call w) = [(xs, mask_ge xs upper); (xs, mask_le xs lower)])
  /\ (tails <> 2%Z ->
      forall critical,
        ppf norm rate_c se_c (1 - alpha) = Ok critical ->
        outcome call w = Ok tt
        /\ critical_values (drawn call w) = [critical]
        /\ shaded (drawn call w) = [(xs, mask_ge xs critical)]).
Proof.
  intros Hc He n_c n_e rate_c se_c xs call.
  assert (Hcall : call w = render norm (frame_of norm (heap w control) (heap w experimental))
                                  alpha tails w)
    by now apply plot_nonempty.
  set (f := frame_of norm (heap w control) (heap w experimental)) in *.
  split.
  - intros -> lower upper Hlo Hhi.
    destruct (render_ok norm f alpha 2 _ (draw_tails_two norm f alpha upper lower Hhi Hlo))
      as (an & Han & Hb & Hs).
    unfold outcome, drawn, exec. rewrite Hcall, Han. cbn [fst snd].
    rewrite skipn_extend. split; [reflexivity |].
    exact (observe_two_tails norm f _ upper _ lower an Hb Hs).
  - intros Ht critical Hcr.
    destruct (render_ok norm f alpha tails _ (draw_tails_one norm f alpha tails critical Ht Hcr))
      as (an & Han & Hb & Hs).
    unfold outcome, drawn, exec. rewrite Hcall, Han. cbn [fst snd].
    rewrite skipn_extend. split; [reflexivity |].
    exact (observe_one_tail norm f _ critical an Hb Hs).
Qed.

Lemma critical_values_from_control_witness :
  let w := sample_world [1; 0; 1; 0]%Z [1; 1; 1; 0]%Z in
  let rate_c := IZR 2 / INR 4 in
  let se_c := sqrt ((1 / INR 4 + 1 / INR 4) * rate_c * (1 - rate_c)) in
  let lower := rate_c + se_c * std_ppf (0.05 / 2) in
  let upper := rate_c + se_c * std_ppf (1 - 0.05 / 2) in
  let call := plot_cvr_distributions normal 0 1 0.05 2 in
  heap w 0 <> [] /\ heap w 1 <> []
  /\ ppf normal rate_c se_c (0.05 / 2) = Ok lower
  /\ ppf normal rate_c se_c (1 - 0.05 / 2) = Ok upper
  /\ outcome call w = Ok tt
  /\ critical_values (drawn call w) = [upper; lower].
Proof.
  intros w rate_c se_c lower upper call.
  assert (Hlo : ppf normal rate_c se_c (0.05 / 2) = Ok lower)
    by (apply normal_ppf_inside; lra).
  assert (Hhi : ppf normal rate_c se_c (1 - 0.05 / 2) = Ok upper)
    by (apply normal_ppf_inside; lra).
  split; [discriminate |]. split; [discriminate |].
  split; [exact Hlo |]. split; [exact Hhi |].
  destruct (proj1 (critical_values_from_control normal 0 1 0.05 2 w
                     ltac:(discriminate) ltac:(discriminate))
                  eq_refl lower upper Hlo Hhi) as (Hok & Hcv & _).
  split; [exact Hok | exact Hcv].
Defined.

(** ** Determinism *)

(** C8: two calls on identical inputs compute identical statistics, whatever
    else differs between the two worlds (what was drawn before, what other
    arrays exist): the frames of rates, standard errors, abscissae and
    densities are equal, the calls end alike, and they issue the same
    drawing calls, which carry the critical values. *)
Theorem identical_inputs_identical_statistics
    (norm : norm_provider) (c1 e1 c2 e2 : loc) (alpha : R) (tails : Z)
    (w1 w2 : world) :
  heap w1 c1 = heap w2 c2 -> heap w1 e1 = heap w2 e2 ->
  outcome (statistics norm c1 e1) w1 = outcome (statistics norm c2 e2) w2
  /\ outcome (plot_cvr_distributions norm c1 e1 alpha tails) w1
     = outcome (plot_cvr_distributions norm c2 e2 alpha tails) w2
  /\ drawn (plot_cvr_distributions norm c1 e1 alpha tails) w1
     = drawn (plot_cvr_distributions norm c2 e2 alpha tails) w2.
Proof.
  intros Hc He.
  assert (Hs : outcome (statistics norm c1 e1) w1 = outcome (statistics norm c2 e2) w2)
    by (apply statistics_count_and_sum; congruence).
  split; [exact Hs |]. now apply plot_same_statistics.
Qed.

Lemma identical_inputs_identical_statistics_witness :
  let w1 := sample_world [1; 0; 1; 0]%Z [1; 1; 1; 0]%Z in
  let w2 := {| heap := fun a => match a with
                                | 5%nat => [1; 0; 1; 0]%Z
                                | 7%nat => [1; 1; 1; 0]%Z
                                | _ => [0]%Z
                                end;
               canvas := [Show; Legend] |} in
  heap w1 0 = heap w2 5 /\ heap w1 1 = heap w2 7
  /\ outcome (statistics normal 0 1) w1 = outcome (statistics normal 5 7) w2
  /\ outcome (plot_cvr_distributions normal 0 1 0.05 2) w1
     = outcome (plot_cvr_distributions normal 5 7 0.05 2) w2
  /\ drawn (plot_cvr_distributions normal 0 1 0.05 2) w1
     = drawn (plot_cvr_distributions normal 5 7 0.05 2) w2.
Proof.
  intros w1 w2.
  split; [reflexivity |]. split; [reflexivity |].
  apply (identical_inputs_identical_statistics normal 0 1 5 7 0.05 2 w1 w2);
    reflexivity.
Defined.

(** ** The inputs are read only *)

(** C9: the call leaves every array of the store as it found it, the two
    input arrays in particular: same elements, same order.  This holds
    whether the call ends normally or raises. *)
Theorem inputs_not_mutated
    (norm : norm_provider) (control experimental : loc) (alpha : R) (tails : Z)
    (w : world) :
  heap (exec (plot_cvr_distributions norm control experimental alpha tails) w) control
  = heap w control
  /\ heap (exec (plot_cvr_distributions norm control experimental alpha tails) w)
          experimental
     = heap w experimental
  /\ forall a,
       heap (exec (plot_cvr_distributions norm control experimental alpha tails) w) a
       = heap w a.
Proof.
  destruct (plot_total norm control experimental alpha tails w) as (r & cs & H).
  unfold exec. rewrite H. cbn [snd]. rewrite heap_extend. auto.
Qed.

(** ** Dependence on the samples *)

(** C10: every statistic depends on each sample through its length and the
    sum of its entries only: two calls whose control arrays agree on length
    and sum, and whose experimental arrays do too, compute the same frame,
    end alike and issue the same drawing calls.  In particular this holds
    when the arrays of one call are permutations of those of the other. *)
Theorem statistics_depend_on_length_and_sum :
  (forall (norm : norm_provider) (c1 e1 c2 e2 : loc) (alpha : R) (tails : Z)
          (w1 w2 : world),
      length (heap w1 c1) = length (heap w2 c2) ->
      array_sum (heap w1 c1) = array_sum (heap w2 c2) ->
      length (heap w1 e1) = length (heap w2 e2) ->
      array_sum (heap w1 e1) = array_sum (heap w2 e2) ->
      outcome (statistics norm c1 e1) w1 = outcome (statistics norm c2 e2) w2
      /\ outcome (plot_cvr_distributions norm c1 e1 alpha tails) w1
         = outcome (plot_cvr_distributions norm c2 e2 alpha tails) w2
      /\ drawn (plot_cvr_distributions norm c1 e1 alpha tails) w1
         = drawn (plot_cvr_distributions norm c2 e2 alpha tails) w2)
  /\ (forall (norm : norm_provider) (c1 e1 c2 e2 : loc) (alpha : R) (tails : Z)
             (w1 w2 : world),
      Permutation (heap w1 c1) (heap w2 c2) ->
      Permutation (heap w1 e1) (heap w2 e2) ->
      outcome (statistics norm c1 e1) w1 = outcome (statistics norm c2 e2) w2
      /\ outcome (plot_cvr_distributions norm c1 e1 alpha tails) w1
         = outcome (plot_cvr_distributions norm c2 e2 alpha tails) w2
      /\ drawn (plot_cvr_distributions norm c1 e1 alpha tails) w1
         = drawn (plot_cvr_distributions norm c2 e2 alpha tails) w2).
Proof.
  assert (Hmain : forall norm c1 e1 c2 e2 alpha tails w1 w2,
             length (heap w1 c1) = length (heap w2 c2) ->
             array_sum (heap w1 c1) = array_sum (heap w2 c2) ->
             length (heap w1 e1) = length (heap w2 e2) ->
             array_sum (heap w1 e1) = array_sum (heap w2 e2) ->
             outcome (statistics norm c1 e1) w1 = outcome (statistics norm c2 e2) w2
             /\ outcome (plot_cvr_distributions norm c1 e1 alpha tails) w1
                = outcome (plot_cvr_distributions norm c2 e2 alpha tails) w2
             /\ drawn (plot_cvr_distributions norm c1 e1 alpha tails) w1
                = drawn (plot_cvr_distributions norm c2 e2 alpha tails) w2).
  { intros norm c1 e1 c2 e2 alpha tails w1 w2 Hlc Hsc Hle Hse.
    assert (Hs : outcome (statistics norm c1 e1) w1
                 = outcome (statistics norm c2 e2) w2)
      by now apply statistics_count_and_sum.
    split; [exact Hs |]. now apply plot_same_statistics. }
  split; [exact Hmain |].
  intros norm c1 e1 c2 e2 alpha tails w1 w2 Hpc Hpe.
  apply Hmain.
  - now apply Permutation_length.
  - now apply array_sum_Permutation.
  - now apply Permutation_length.
  - now apply array_sum_Permutation.
Qed.

Lemma statistics_depend_on_length_and_sum_witness :
  let w1 := sample_world [1; 0; 1; 0]%Z [1; 1; 1; 0]%Z in
  let w2 := sample_world [0; 1; 0; 1]%Z [0; 1; 1; 1]%Z in
  Permutation (heap w1 0) (heap w2 0) /\ Permutation (heap w1 1) (heap w2 1)
  /\ outcome (statistics normal 0 1) w1 = outcome (statistics normal 0 1) w2
  /\ outcome (plot_cvr_distributions normal 0 1 0.05 1) w1
     = outcome (plot_cvr_distributions normal 0 1 0.05 1) w2
  /\ drawn (plot_cvr_distributions normal 0 1 0.05 1) w1
     = drawn (plot_cvr_distributions normal 0 1 0.05 1) w2.
Proof.
  intros w1 w2.
  assert (Hc : Permutation (heap w1 0) (heap w2 0)).
  { simpl. eapply perm_trans; [apply perm_swap |].
    do 2 apply perm_skip. apply perm_swap. }
  assert (He : Permutation (heap w1 1) (heap w2 1)).
  { simpl. apply Permutation_sym.
    change [1; 1; 1; 0]%Z with ([1; 1; 1] ++ [0])%Z.
    apply Permutation_cons_append. }
  split; [exact Hc |]. split; [exact He |].
  exact (proj2 statistics_depend_on_length_and_sum
           normal 0%nat 1%nat 0%nat 1%nat 0.05 1%Z w1 w2 Hc He).
Defined.

(** * Further properties of the function *)

(** ** More observations of the log *)

(** Line 93: the larger of the two curves' maxima. *)
Definition ymax (f : locals) : R :=
  if Rgt_dec (arr_max (y_experimental f)) (arr_max (y_control f))
  then arr_max (y_experimental f) else arr_max (y_control f).

Definition ylims (cs : list plot_call) : list (R * R) :=
  flat_map (fun c => match c with SetYlim lo hi => [(lo, hi)] | _ => [] end) cs.

Definition baselines (cs : list plot_call) : list (R * R * R) :=
  flat_map (fun c => match c with HLines y a b => [(y, a, b)] | _ => [] end) cs.

Definition annotated (cs : list plot_call) : list (R * R * R) :=
  flat_map (fun c => match c with Annotate v x y => [(v, x, y)] | _ => [] end) cs.

Definition points (cs : list plot_call) : list (R * R) :=
  flat_map (fun c => match c with PlotPoint x y => [(x, y)] | _ => [] end) cs.

Definition is_show (c : plot_call) : bool :=
  match c with Show => true | _ => false end.

(** The calls of the tail section are shadings and dashed markers. *)
Definition tail_call (c : plot_call) : Prop :=
  match c with
  | FillBetween _ _ _ _ | VLines _ _ _ => True
  | _ => False
  end.

(** The calls a computation adds, read off a run from the empty world. *)
Definition blank : world := {| heap := fun _ => []; canvas := [] |}.

Definition calls_of {A} (m : M A) : list plot_call := canvas (exec m blank).

(** The calls of lines 92-137. *)
Definition annotations (f : locals) : list plot_call :=
  calls_of (draw_annotations f).

Lemma appends_calls_of {A} (m : M A) r cs : appends m r cs -> calls_of m = cs.
Proof. intros H. unfold calls_of, exec. now rewrite H. Qed.

Lemma draw_annotations_runs f :
  appends (draw_annotations f) (Ok tt) (annotations f).
Proof.
  destruct (draw_annotations_appends f) as (cs & H & _).
  unfold annotations. now rewrite (appends_calls_of _ _ _ H).
Qed.

Lemma annotations_shape f :
  ylims (annotations f) = [(ymax f * -0.1, ymax f * 1.1)]
  /\ baselines (annotations f)
     = [(0, Rmin (arr_min (x_control f)) (arr_min (x_experimental f)),
            Rmax (arr_max (x_control f)) (arr_max (x_experimental f)))]
  /\ annotated (annotations f)
     = [(round4 (experimental_cvr f), experimental_cvr f, ymax f * -0.07);
        (round4 (control_cvr f), control_cvr f, ymax f * -0.07)]
  /\ points (annotations f) = [(experimental_cvr f, 0); (control_cvr f, 0)]
  /\ filter is_show (annotations f) = [Show]
  /\ last (annotations f) Legend = Show
  /\ length (annotations f) = 13%nat
  /\ critical_values (annotations f) = []
  /\ shaded (annotations f) = [].
Proof.
  assert (H : exists cs, annotations f = cs
                         /\ ylims cs = [(ymax f * -0.1, ymax f * 1.1)]
                         /\ baselines cs
                            = [(0, Rmin (arr_min (x_control f)) (arr_min (x_experimental f)),
                                   Rmax (arr_max (x_control f)) (arr_max (x_experimental f)))]
                         /\ annotated cs
                            = [(round4 (experimental_cvr f), experimental_cvr f, ymax f * -0.07);
                               (round4 (control_cvr f), control_cvr f, ymax f * -0.07)]
                         /\ points cs = [(experimental_cvr f, 0); (control_cvr f, 0)]
                         /\ filter is_show cs = [Show]
                         /\ last cs Legend = Show
                         /\ length cs = 13%nat
                         /\ critical_values cs = []
                         /\ shaded cs = []).
  { eexists. split.
    - unfold annotations. apply appends_calls_of with (r := Ok tt).
      unfold draw_annotations. run_all.
    - repeat split. }
  destruct H as (cs & -> & H). exact H.
Qed.

Lemma flat_map_tail_calls {B} (g : plot_call -> list B) ts :
  (forall c, tail_call c -> g c = []) -> Forall tail_call ts -> flat_map g ts = [].
Proof.
  intros Hg. induction 1 as [| c ts Hc _ IH]; [reflexivity |].
  simpl. now rewrite (Hg c Hc), IH.
Qed.

Lemma filter_tail_calls ts : Forall tail_call ts -> filter is_show ts = [].
Proof.
  induction 1 as [| c ts Hc _ IH]; [reflexivity |].
  simpl. destruct c; simpl in Hc; try contradiction; exact IH.
Qed.

Section Shape.

Variable norm : norm_provider.

Lemma tail_at_tail_calls f m c : Forall tail_call (tail_at norm f m c).
Proof. unfold tail_at. repeat constructor. Qed.

(** The tail section ends with some result, after shadings and markers
    only. *)
Lemma draw_tails_shape f alpha tails :
  exists r ts, appends (draw_tails norm f alpha tails) r ts /\ Forall tail_call ts.
Proof.
  destruct (Z.eq_dec tails 2) as [-> | Ht].
  - destruct (ppf norm (control_cvr f) (population_std f) (1 - alpha / 2))
      as [hi | e] eqn:Hhi.
    + destruct (ppf norm (control_cvr f) (population_std f) (alpha / 2))
        as [lo | e] eqn:Hlo.
      * do 2 eexists. split; [eapply draw_tails_two; eassumption |].
        apply Forall_app. split; apply tail_at_tail_calls.
      * do 2 eexists. split; [eapply draw_tails_two_lower_fails; eassumption |].
        apply tail_at_tail_calls.
    + do 2 eexists. split; [eapply draw_tails_two_upper_fails; eassumption |].
      constructor.
  - destruct (ppf norm (control_cvr f) (population_std f) (1 - alpha))
      as [c | e] eqn:Hc.
    + do 2 eexists. split; [eapply draw_tails_one; eassumption |].
      apply tail_at_tail_calls.
    + do 2 eexists. split; [eapply draw_tails_one_fails; eassumption |].
      constructor.
Qed.

(** What a call on non-empty samples draws: the figure and the two curves,
    the tail section as far as it got, and the annotations if it got
    through. *)
Lemma plot_drawn control experimental alpha tails w :
  heap w control <> [] -> heap w experimental <> [] ->
  let f := frame_of norm (heap w control) (heap w experimental) in
  let call := plot_cvr_distributions norm control experimental alpha tails in
  exists r ts,
    appends (draw_tails norm f alpha tails) r ts
    /\ Forall tail_call ts
    /\ outcome call w = r
    /\ drawn call w
       = curves f ++ ts ++ match r with Ok _ => annotations f | Err _ => [] end.
Proof.
  intros Hc He f call.
  destruct (draw_tails_shape f alpha tails) as (r & ts & Hts & Hall).
  exists r, ts. split; [exact Hts |]. split; [exact Hall |].
  assert (Hrun : appends (render norm f alpha tails) r
                   (curves f ++ ts ++ match r with
                                      | Ok _ => annotations f
                                      | Err _ => []
                                      end)).
  { destruct r as [[] | e].
    - unfold render. eapply appends_eq.
      + do 3 run_ok. eapply appends_bind_ok; [exact Hts | apply draw_annotations_runs].
      + reflexivity.
    - rewrite app_nil_r. now apply render_err. }
  unfold outcome, drawn, exec, call.
  rewrite plot_nonempty by assumption. fold f. rewrite Hrun. cbn [fst snd].
  now rewrite skipn_extend.
Qed.

End Shape.

(** ** Maxima, minima and the grid *)

Lemma fold_left_Rmax_spec t :
  forall x,
    x <= fold_left Rmax t x
    /\ (forall y, In y t -> y <= fold_left Rmax t x)
    /\ In (fold_left Rmax t x) (x :: t).
Proof.
  induction t as [| a t IH]; intros x; simpl.
  - split; [lra |]. split; [tauto | now left].
  - destruct (IH (Rmax x a)) as (H1 & H2 & H3).
    pose proof (Rmax_l x a) as Hl. pose proof (Rmax_r x a) as Hr.
    split; [lra |]. split.
    + intros y [<- | Hy]; [lra | now apply H2].
    + destruct H3 as [H3 | H3]; [| now right; right].
      rewrite <- H3. unfold Rmax. destruct (Rle_dec x a); [right; now left | now left].
Qed.

Lemma fold_left_Rmin_spec t :
  forall x,
    fold_left Rmin t x <= x
    /\ (forall y, In y t -> fold_left Rmin t x <= y)
    /\ In (fold_left Rmin t x) (x :: t).
Proof.
  induction t as [| a t IH]; intros x; simpl.
  - split; [lra |]. split; [tauto | now left].
  - destruct (IH (Rmin x a)) as (H1 & H2 & H3).
    pose proof (Rmin_l x a) as Hl. pose proof (Rmin_r x a) as Hr.
    split; [lra |]. split.
    + intros y [<- | Hy]; [lra | now apply H2].
    + destruct H3 as [H3 | H3]; [| now right; right].
      rewrite <- H3. unfold Rmin. destruct (Rle_dec x a); [now left | right; now left].
Qed.

Lemma arr_max_upper l y : In y l -> y <= arr_max l.
Proof.
  destruct l as [| x t]; [contradiction |]. simpl.
  destruct (fold_left_Rmax_spec t x) as (H1 & H2 & _).
  intros [<- | Hy]; [exact H1 | now apply H2].
Qed.

Lemma arr_max_In l : l <> [] -> In (arr_max l) l.
Proof.
  destruct l as [| x t]; [congruence |]. intros _. simpl.
  now destruct (fold_left_Rmax_spec t x) as (_ & _ & H).
Qed.

Lemma arr_min_lower l y : In y l -> arr_min l <= y.
Proof.
  destruct l as [| x t]; [contradiction |]. simpl.
  destruct (fold_left_Rmin_spec t x) as (H1 & H2 & _).
  intros [<- | Hy]; [exact H1 | now apply H2].
Qed.

Lemma arr_min_In l : l <> [] -> In (arr_min l) l.
Proof.
  destruct l as [| x t]; [congruence |]. intros _. simpl.
  now destruct (fold_left_Rmin_spec t x) as (_ & _ & H).
Qed.

Lemma In_linspace a b n x :
  In x (linspace a b n) ->
  exists i, (i < n)%nat /\ x = a + INR i * ((b - a) / INR (n - 1)).
Proof.
  unfold linspace. rewrite in_map_iff. intros (i & <- & Hi).
  apply in_seq in Hi. exists i. split; [lia | reflexivity].
Qed.

Lemma linspace_within a b n x :
  (2 <= n)%nat -> a <= b -> In x (linspace a b n) -> a <= x <= b.
Proof.
  intros Hn Hab Hx. apply In_linspace in Hx. destruct Hx as (i & Hi & ->).
  assert (Hd : 0 < INR (n - 1)) by (apply lt_0_INR; lia).
  assert (Hk : 0 <= INR i <= INR (n - 1)).
  { split; [apply pos_INR | apply le_INR; lia]. }
  set (d := INR (n - 1)) in *. set (k := INR i) in *.
  assert (Ht : 0 <= (b - a) / d).
  { unfold Rdiv. apply Rmult_le_pos; [lra |]. left. now apply Rinv_0_lt_compat. }
  assert (Hd' : (b - a) / d * d = b - a) by (field; lra).
  set (t := (b - a) / d) in *.
  split; nra.
Qed.

Lemma linspace_nonempty a b n : (2 <= n)%nat -> linspace a b n <> [].
Proof.
  intros Hn H. apply (f_equal (@length R)) in H.
  rewrite length_linspace in H. simpl in H. lia.
Qed.

Lemma linspace_ends a b n :
  (2 <= n)%nat -> In a (linspace a b n) /\ In b (linspace a b n).
Proof.
  intros Hn. destruct (linspace_evenly_spaced a b n Hn) as (Hl & H0 & Hl' & _).
  split.
  - rewrite <- H0 at 1. apply nth_In. lia.
  - rewrite <- Hl' at 1. apply nth_In. lia.
Qed.

Lemma arr_min_linspace a b n :
  (2 <= n)%nat -> a <= b -> arr_min (linspace a b n) = a.
Proof.
  intros Hn Hab. apply Rle_antisym.
  - apply arr_min_lower. now apply linspace_ends.
  - apply (linspace_within a b n _ Hn Hab).
    apply arr_min_In. now apply linspace_nonempty.
Qed.

Lemma arr_max_linspace a b n :
  (2 <= n)%nat -> a <= b -> arr_max (linspace a b n) = b.
Proof.
  intros Hn Hab. apply Rle_antisym.
  - apply (linspace_within a b n _ Hn Hab).
    apply arr_max_In. now apply linspace_nonempty.
  - apply arr_max_upper. now apply linspace_ends.
Qed.

Lemma linspace_constant a n : linspace a a n = repeat a n.
Proof.
  unfold linspace. generalize (INR (n - 1)) as d. generalize 0%nat as s.
  induction n as [| m IH]; intros s d; [reflexivity |].
  simpl. f_equal; [unfold Rdiv; ring | apply IH].
Qed.

(** ** Samples of zeros and ones *)

Definition binary (l : list Z) : Prop := Forall (fun z => z = 0%Z \/ z = 1%Z) l.

Lemma array_sum_binary l :
  binary l -> (0 <= array_sum l <= Z.of_nat (length l))%Z.
Proof.
  induction 1 as [| z l Hz _ IH]; [simpl; lia |].
  change (array_sum (z :: l)) with (z + array_sum l)%Z.
  simpl length. destruct Hz; subst z; lia.
Qed.

Lemma mean_of_binary l : l <> [] -> binary l -> 0 <= mean_of l <= 1.
Proof.
  intros Hne Hb. unfold mean_of.
  pose proof (array_sum_binary l Hb) as [H0 H1].
  assert (Hn : 0 < INR (length l)).
  { apply lt_0_INR. destruct l; [congruence | simpl; lia]. }
  apply IZR_le in H0, H1. rewrite <- INR_IZR_INZ in H1.
  split.
  - apply Rmult_le_pos; [exact H0 | left; now apply Rinv_0_lt_compat].
  - apply Rmult_le_reg_r with (r := INR (length l)); [exact Hn |].
    unfold Rdiv. rewrite Rmult_assoc, Rinv_l by lra. lra.
Qed.

(** ** Reading a finished chart *)

Lemma plot_success norm control experimental alpha tails w :
  heap w control <> [] -> heap w experimental <> [] ->
  outcome (plot_cvr_distributions norm control experimental alpha tails) w = Ok tt ->
  exists ts,
    Forall tail_call ts
    /\ drawn (plot_cvr_distributions norm control experimental alpha tails) w
       = curves (frame_of norm (heap w control) (heap w experimental)) ++ ts
         ++ annotations (frame_of norm (heap w control) (heap w experimental)).
Proof.
  intros Hc He Hok.
  destruct (plot_drawn norm control experimental alpha tails w Hc He)
    as (r & ts & _ & Hall & Hr & Hd).
  rewrite Hok in Hr. subst r. exists ts. split; [exact Hall | exact Hd].
Qed.

Lemma observe_past_tails {B} (g : plot_call -> list B) f ts an :
  (forall c, tail_call c -> g c = []) ->
  flat_map g (curves f) = [] ->
  Forall tail_call ts ->
  flat_map g (curves f ++ ts ++ an) = flat_map g an.
Proof.
  intros Hg Hcv Hts.
  now rewrite !flat_map_app, Hcv, (flat_map_tail_calls g ts Hg Hts).
Qed.

Ltac past_tails :=
  apply observe_past_tails;
  [ let H := fresh in intros [] H; simpl in H; try contradiction; reflexivity
  | reflexivity
  | assumption ].

Lemma last_app_nonempty {A} (l l' : list A) d : l' <> [] -> last (l ++ l') d = last l' d.
Proof.
  intros Hne. induction l as [| a l IH]; [reflexivity |].
  simpl. rewrite IH. destruct (l ++ l') eqn:E; [| reflexivity].
  apply app_eq_nil in E. destruct E. congruence.
Qed.

Lemma Rinv_nonneg x : 0 <= x -> 0 <= / x.
Proof.
  intros [Hx | <-]; [left; now apply Rinv_0_lt_compat | rewrite Rinv_0; lra].
Qed.

Lemma std_pdf_pos t : 0 < std_pdf t.
Proof.
  unfold std_pdf. apply Rdiv_lt_0_compat; [apply exp_pos |].
  apply sqrt_lt_R0. pose proof PI_RGT_0. lra.
Qed.

Lemma normal_pdf_nonneg loc scale x : 0 <= scale -> 0 <= pdf normal loc scale x.
Proof.
  intros Hs. simpl. unfold Rdiv at 1.
  apply Rmult_le_pos; [left; apply std_pdf_pos | now apply Rinv_nonneg].
Qed.

(** ** Samples of zeros and ones: rates and variances *)

(** X1: on non-empty samples of zeros and ones both rates, the means of the
    two samples, lie in [0,1]; the two variance terms of lines 31 and 32
    lie in [0,1] as well, so each square root is taken of a non-negative
    number, and both standard errors lie in [0,1]. *)
Theorem binary_samples_rates_and_variances
    (norm : norm_provider) (control experimental : loc) (w : world) :
  heap w control <> [] -> heap w experimental <> [] ->
  binary (heap w control) -> binary (heap w experimental) ->
  let n_c := INR (length (heap w control)) in
  let n_e := INR (length (heap w experimental)) in
  let rate_c := IZR (array_sum (heap w control)) / n_c in
  let rate_e := IZR (array_sum (heap w experimental)) / n_e in
  let var_c := (1 / n_c + 1 / n_e) * rate_c * (1 - rate_c) in
  let var_e := 1 / n_e * rate_e * (1 - rate_e) in
  exists f,
    statistics norm control experimental w = (Ok f, w)
    /\ control_cvr f = rate_c /\ 0 <= rate_c <= 1
    /\ experimental_cvr f = rate_e /\ 0 <= rate_e <= 1
    /\ population_std f = sqrt var_c /\ 0 <= var_c <= 1
    /\ experimental_std f = sqrt var_e /\ 0 <= var_e <= 1
    /\ 0 <= population_std f <= 1
    /\ 0 <= experimental_std f <= 1.
Proof.
  intros Hc He Hbc Hbe n_c n_e rate_c rate_e var_c var_e.
  exists (frame_of norm (heap w control) (heap w experimental)).
  split; [now apply statistics_nonempty |].
  cbn [frame_of control_cvr experimental_cvr population_std experimental_std].
  pose proof (mean_of_binary _ Hc Hbc) as Hrc.
  pose proof (mean_of_binary _ He Hbe) as Hre.
  change (mean_of (heap w control)) with rate_c in *.
  change (mean_of (heap w experimental)) with rate_e in *.
  assert (Hinv : forall l : list Z, l <> [] -> 0 < / INR (length l) <= 1).
  { intros l Hl.
    assert (H1 : 1 <= INR (length l)).
    { change 1 with (INR 1). apply le_INR. destruct l; [congruence | simpl; lia]. }
    split; [apply Rinv_0_lt_compat; lra |].
    rewrite <- Rinv_1. apply Rinv_le_contravar; lra. }
  pose proof (Hinv _ Hc) as Hnc. pose proof (Hinv _ He) as Hne.
  fold n_c in Hnc. fold n_e in Hne.
  assert (Hquarter : forall r, 0 <= r <= 1 -> 0 <= r * (1 - r) <= / 4).
  { intros r Hr. pose proof (Rle_0_sqr (r - / 2)) as Hsq. unfold Rsqr in Hsq.
    split; [apply Rmult_le_pos; lra | lra]. }
  pose proof (Hquarter rate_c Hrc) as Hpp. pose proof (Hquarter rate_e Hre) as Hqq.
  assert (Hvc : 0 <= var_c <= 1).
  { unfold var_c, Rdiv. rewrite !Rmult_1_l, Rmult_assoc.
    set (a := / n_c) in *. set (b := / n_e) in *.
    set (v := rate_c * (1 - rate_c)) in *.
    split; [apply Rmult_le_pos; lra | nra]. }
  assert (Hve : 0 <= var_e <= 1).
  { unfold var_e, Rdiv. rewrite !Rmult_1_l, Rmult_assoc.
    set (b := / n_e) in *. set (v := rate_e * (1 - rate_e)) in *.
    split; [apply Rmult_le_pos; lra | nra]. }
  assert (Hsqrt : forall v, 0 <= v <= 1 -> 0 <= sqrt v <= 1).
  { intros v Hv. split; [apply sqrt_pos |].
    rewrite <- sqrt_1. apply sqrt_le_1_alt. lra. }
  repeat match goal with
         | |- _ /\ _ => split
         | |- _ = _ => reflexivity
         | |- _ <= _ => first [apply Hrc | apply Hre | apply Hvc | apply Hve
                               | apply (Hsqrt _ Hvc) | apply (Hsqrt _ Hve)]
         end.
Qed.

Lemma binary_samples_rates_and_variances_witness :
  let w := sample_world [1; 0; 1; 0]%Z [1; 1; 1; 0]%Z in
  heap w 0 <> [] /\ heap w 1 <> []
  /\ binary (heap w 0) /\ binary (heap w 1)
  /\ exists f,
       statistics normal 0 1 w = (Ok f, w)
       /\ control_cvr f = IZR 2 / INR 4
       /\ experimental_cvr f = IZR 3 / INR 4
       /\ 0 <= population_std f <= 1
       /\ 0 <= experimental_std f <= 1.
Proof.
  intros w.
  assert (Hbc : binary (heap w 0)) by (repeat constructor; auto).
  assert (Hbe : binary (heap w 1)) by (repeat constructor; auto).
  split; [discriminate |]. split; [discriminate |].
  split; [exact Hbc |]. split; [exact Hbe |].
  destruct (binary_samples_rates_and_variances normal 0 1 w
              ltac:(discriminate) ltac:(discriminate) Hbc Hbe)
    as (f & Hrun & Hrc & _ & Hre & _ & _ & _ & _ & _ & Hsc & Hse).
  exists f. split; [exact Hrun |]. split; [exact Hrc |]. split; [exact Hre |].
  split; [exact Hsc | exact Hse].
Defined.

(** ** The same sample on both sides *)

(** X2: when the two arrays have the same length and the same sum, as when
    one array is passed for both arms, the two rates are the same number
    and the control variance term is twice the experimental one: with [v]
    the experimental variance term, the experimental standard error is
    [sqrt v] and the control standard error is [sqrt (2 v)], which is not
    smaller. *)
Theorem equal_samples_std_ratio
    (norm : norm_provider) (control experimental : loc) (w : world) :
  heap w control <> [] ->
  length (heap w control) = length (heap w experimental) ->
  array_sum (heap w control) = array_sum (heap w experimental) ->
  let n := INR (length (heap w experimental)) in
  let rate := IZR (array_sum (heap w experimental)) / n in
  let v := 1 / n * rate * (1 - rate) in
  exists f,
    statistics norm control experimental w = (Ok f, w)
    /\ control_cvr f = rate /\ experimental_cvr f = rate
    /\ experimental_std f = sqrt v
    /\ population_std f = sqrt (2 * v)
    /\ experimental_std f <= population_std f.
Proof.
  intros Hc Hl Hs n rate v.
  assert (He : heap w experimental <> []).
  { intros Hnil. rewrite Hnil in Hl. destruct (heap w control); [congruence | discriminate]. }
  exists (frame_of norm (heap w control) (heap w experimental)).
  split; [now apply statistics_nonempty |].
  cbn [frame_of control_cvr experimental_cvr population_std experimental_std].
  assert (Hm : mean_of (heap w control) = rate)
    by (unfold mean_of, rate, n; now rewrite Hl, Hs).
  rewrite Hm, Hl. change (mean_of (heap w experimental)) with rate. fold n.
  assert (Hv : (1 / n + 1 / n) * rate * (1 - rate) = 2 * v)
    by (unfold v, Rdiv; ring).
  rewrite Hv. fold v.
  split; [reflexivity |]. split; [reflexivity |].
  split; [reflexivity |]. split; [reflexivity |].
  destruct (Rle_dec 0 v) as [Hpos | Hneg].
  - apply sqrt_le_1_alt. lra.
  - rewrite (sqrt_neg_0 v) by lra. apply sqrt_pos.
Qed.

Lemma equal_samples_std_ratio_witness :
  let w := sample_world [1; 0; 1; 0]%Z [1; 1; 1; 0]%Z in
  let v := 1 / INR 4 * (IZR 3 / INR 4) * (1 - IZR 3 / INR 4) in
  heap w 1 <> []
  /\ exists f,
       statistics normal 1 1 w = (Ok f, w)
       /\ control_cvr f = experimental_cvr f
       /\ experimental_std f = sqrt v
       /\ population_std f = sqrt (2 * v).
Proof.
  intros w v. split; [discriminate |].
  destruct (equal_samples_std_ratio normal 1 1 w
              ltac:(discriminate) eq_refl eq_refl)
    as (f & Hrun & Hrc & Hre & Hse & Hsc & _).
  exists f. split; [exact Hrun |]. split; [now rewrite Hrc, Hre |].
  split; [exact Hse | exact Hsc].
Defined.

(** ** Constant samples: a curve of zero width *)

(** X3: when the control sample is made of ones only or of zeros only, the
    1000 abscissae of the control curve all equal the control rate; the
    same holds of the experimental sample and the experimental curve. *)
Theorem constant_sample_zero_width
    (norm : norm_provider) (control experimental : loc) (w : world) :
  heap w control <> [] -> heap w experimental <> [] ->
  exists f,
    statistics norm control experimental w = (Ok f, w)
    /\ (Forall (eq 1%Z) (heap w control) \/ Forall (eq 0%Z) (heap w control) ->
        x_control f = repeat (control_cvr f) 1000)
    /\ (Forall (eq 1%Z) (heap w experimental) \/ Forall (eq 0%Z) (heap w experimental) ->
        x_experimental f = repeat (experimental_cvr f) 1000).
Proof.
  intros Hc He.
  exists (frame_of norm (heap w control) (heap w experimental)).
  split; [now apply statistics_nonempty |].
  cbn [frame_of control_cvr experimental_cvr x_control x_experimental].
  assert (Hzero : forall k r, r = 1 \/ r = 0 -> sqrt (k * r * (1 - r)) = 0).
  { intros k r [-> | ->].
    - replace (k * 1 * (1 - 1)) with 0 by ring. apply sqrt_0.
    - replace (k * 0 * (1 - 0)) with 0 by ring. apply sqrt_0. }
  assert (Hflat : forall r s, s = 0 -> linspace (r - 4 * s) (r + 4 * s) 1000 = repeat r 1000).
  { intros r s ->. replace (r - 4 * 0) with r by ring. replace (r + 4 * 0) with r by ring.
    apply linspace_constant. }
  split; intros Hall; apply Hflat, Hzero.
  - destruct Hall as [H | H];
      [left; now apply mean_of_all_ones | right; now apply mean_of_all_zeros].
  - destruct Hall as [H | H];
      [left; now apply mean_of_all_ones | right; now apply mean_of_all_zeros].
Qed.

Lemma constant_sample_zero_width_witness :
  let w := sample_world [1; 1; 1]%Z [0; 0]%Z in
  heap w 0 <> [] /\ heap w 1 <> []
  /\ Forall (eq 1%Z) (heap w 0) /\ Forall (eq 0%Z) (heap w 1)
  /\ exists f,
       statistics normal 0 1 w = (Ok f, w)
       /\ x_control f = repeat (control_cvr f) 1000
       /\ x_experimental f = repeat (experimental_cvr f) 1000.
Proof.
  intros w.
  assert (H1 : Forall (eq 1%Z) (heap w 0)) by (repeat constructor).
  assert (H0 : Forall (eq 0%Z) (heap w 1)) by (repeat constructor).
  split; [discriminate |]. split; [discriminate |].
  split; [exact H1 |]. split; [exact H0 |].
  destruct (constant_sample_zero_width normal 0 1 w
              ltac:(discriminate) ltac:(discriminate)) as (f & Hrun & Hxc & Hxe).
  exists f. split; [exact Hrun |].
  split; [apply Hxc; now left | apply Hxe; now right].
Defined.

(** ** The baseline and the vertical limits *)

(** X4: a call that ends normally draws one baseline, at height 0, from the
    smaller of the two arms' mean minus four standard deviations to the
    larger of the two arms' mean plus four standard deviations; every
    abscissa of either curve lies between its ends. *)
Theorem baseline_spans_both_curves
    (norm : norm_provider) (control experimental : loc) (alpha : R) (tails : Z)
    (w : world) :
  heap w control <> [] -> heap w experimental <> [] ->
  outcome (plot_cvr_distributions norm control experimental alpha tails) w = Ok tt ->
  exists f,
    statistics norm control experimental w = (Ok f, w)
    /\ let xmin := Rmin (control_cvr f - 4 * population_std f)
                        (experimental_cvr f - 4 * experimental_std f) in
       let xmax := Rmax (control_cvr f + 4 * population_std f)
                        (experimental_cvr f + 4 * experimental_std f) in
       baselines (drawn (plot_cvr_distributions norm control experimental alpha tails) w)
       = [(0, xmin, xmax)]
       /\ forall x, In x (x_control f ++ x_experimental f) -> xmin <= x <= xmax.
Proof.
  intros Hc He Hok.
  destruct (plot_success norm control experimental alpha tails w Hc He Hok)
    as (ts & Hts & Hd).
  set (f := frame_of norm (heap w control) (heap w experimental)) in *.
  exists f. split; [now apply statistics_nonempty |].
  assert (Hsc : 0 <= population_std f) by apply sqrt_pos.
  assert (Hse : 0 <= experimental_std f) by apply sqrt_pos.
  assert (Hxc : x_control f
                = linspace (control_cvr f - 4 * population_std f)
                           (control_cvr f + 4 * population_std f) 1000) by reflexivity.
  assert (Hxe : x_experimental f
                = linspace (experimental_cvr f - 4 * experimental_std f)
                           (experimental_cvr f + 4 * experimental_std f) 1000)
    by reflexivity.
  intros xmin xmax. split.
  - rewrite Hd. unfold baselines.
    etransitivity; [past_tails |].
    destruct (annotations_shape f) as (_ & Hb & _). unfold baselines in Hb.
    rewrite Hb, Hxc, Hxe.
    rewrite !arr_min_linspace, !arr_max_linspace by (try lia; lra).
    reflexivity.
  - intros x Hx. apply in_app_or in Hx.
    pose proof (Rmin_l (control_cvr f - 4 * population_std f)
                       (experimental_cvr f - 4 * experimental_std f)).
    pose proof (Rmin_r (control_cvr f - 4 * population_std f)
                       (experimental_cvr f - 4 * experimental_std f)).
    pose proof (Rmax_l (control_cvr f + 4 * population_std f)
                       (experimental_cvr f + 4 * experimental_std f)).
    pose proof (Rmax_r (control_cvr f + 4 * population_std f)
                       (experimental_cvr f + 4 * experimental_std f)).
    fold xmin in H, H0. fold xmax in H1, H2.
    destruct Hx as [Hx | Hx].
    + rewrite Hxc in Hx. apply linspace_within in Hx; [lra | lia | lra].
    + rewrite Hxe in Hx. apply linspace_within in Hx; [lra | lia | lra].
Qed.

Lemma normal_call_succeeds :
  outcome (plot_cvr_distributions normal 0 1 0.05 2)
          (sample_world [1; 0; 1; 0]%Z [1; 1; 1; 0]%Z) = Ok tt.
Proof. exact (proj2 documented_call). Qed.

Lemma baseline_spans_both_curves_witness :
  let w := sample_world [1; 0; 1; 0]%Z [1; 1; 1; 0]%Z in
  let call := plot_cvr_distributions normal 0 1 0.05 2 in
  heap w 0 <> [] /\ heap w 1 <> [] /\ outcome call w = Ok tt
  /\ exists f,
       statistics normal 0 1 w = (Ok f, w)
       /\ baselines (drawn call w)
          = [(0, Rmin (control_cvr f - 4 * population_std f)
                      (experimental_cvr f - 4 * experimental_std f),
                 Rmax (control_cvr f + 4 * population_std f)
                      (experimental_cvr f + 4 * experimental_std f))].
Proof.
  intros w call.
  split; [discriminate |]. split; [discriminate |].
  split; [exact normal_call_succeeds |].
  destruct (baseline_spans_both_curves normal 0 1 0.05 2 w
              ltac:(discriminate) ltac:(discriminate) normal_call_succeeds)
    as (f & Hrun & Hb & _).
  exists f. split; [exact Hrun | exact Hb].
Defined.

(** X5: a call that ends normally sets the vertical limits once, to -0.1
    and 1.1 times [ymax], where [ymax] is a density value of one of the two
    curves and no density value of either curve exceeds it.  When the
    provider's densities are non-negative, all of them lie within the
    limits. *)
Theorem curves_fit_vertical_limits
    (norm : norm_provider) (control experimental : loc) (alpha : R) (tails : Z)
    (w : world) :
  heap w control <> [] -> heap w experimental <> [] ->
  outcome (plot_cvr_distributions norm control experimental alpha tails) w = Ok tt ->
  exists f,
    statistics norm control experimental w = (Ok f, w)
    /\ ylims (drawn (plot_cvr_distributions norm control experimental alpha tails) w)
       = [(ymax f * -0.1, ymax f * 1.1)]
    /\ In (ymax f) (y_control f ++ y_experimental f)
    /\ (forall y, In y (y_control f ++ y_experimental f) -> y <= ymax f)
    /\ ((forall loc scale x, 0 <= scale -> 0 <= pdf norm loc scale x) ->
        forall y, In y (y_control f ++ y_experimental f) ->
                  ymax f * -0.1 <= y <= ymax f * 1.1).
Proof.
  intros Hc He Hok.
  destruct (plot_success norm control experimental alpha tails w Hc He Hok)
    as (ts & Hts & Hd).
  set (f := frame_of norm (heap w control) (heap w experimental)) in *.
  exists f. split; [now apply statistics_nonempty |].
  assert (Hyc : y_control f <> []).
  { intros H. apply (f_equal (@length R)) in H.
    unfold f, frame_of in H. cbn [y_control] in H.
    rewrite length_map, length_linspace in H. discriminate. }
  assert (Hye : y_experimental f <> []).
  { intros H. apply (f_equal (@length R)) in H.
    unfold f, frame_of in H. cbn [y_experimental] in H.
    rewrite length_map, length_linspace in H. discriminate. }
  assert (Hin : In (ymax f) (y_control f ++ y_experimental f)).
  { unfold ymax. apply in_or_app.
    destruct (Rgt_dec (arr_max (y_experimental f)) (arr_max (y_control f)));
      [right | left]; now apply arr_max_In. }
  assert (Hub : forall y, In y (y_control f ++ y_experimental f) -> y <= ymax f).
  { intros y Hy. apply in_app_or in Hy. unfold ymax.
    destruct (Rgt_dec (arr_max (y_experimental f)) (arr_max (y_control f)));
      destruct Hy as [Hy | Hy].
    - apply arr_max_upper in Hy. lra.
    - now apply arr_max_upper.
    - now apply arr_max_upper.
    - apply arr_max_upper in Hy. lra. }
  split.
  { rewrite Hd. unfold ylims. etransitivity; [past_tails |].
    now destruct (annotations_shape f) as (Hy & _). }
  split; [exact Hin |]. split; [exact Hub |].
  intros Hpos y Hy.
  assert (Hnn : forall z, In z (y_control f ++ y_experimental f) -> 0 <= z).
  { intros z Hz. apply in_app_or in Hz.
    unfold f, frame_of in Hz. cbn [y_control y_experimental] in Hz.
    destruct Hz as [Hz | Hz]; apply in_map_iff in Hz; destruct Hz as (x & <- & _);
      apply Hpos, sqrt_pos. }
  pose proof (Hnn _ Hin) as H0. pose proof (Hnn _ Hy) as H1.
  pose proof (Hub _ Hy) as H2. lra.
Qed.

Lemma curves_fit_vertical_limits_witness :
  let w := sample_world [1; 0; 1; 0]%Z [1; 1; 1; 0]%Z in
  let call := plot_cvr_distributions normal 0 1 0.05 2 in
  heap w 0 <> [] /\ heap w 1 <> [] /\ outcome call w = Ok tt
  /\ (forall loc scale x, 0 <= scale -> 0 <= pdf normal loc scale x)
  /\ exists f,
       statistics normal 0 1 w = (Ok f, w)
       /\ ylims (drawn call w) = [(ymax f * -0.1, ymax f * 1.1)]
       /\ forall y, In y (y_control f ++ y_experimental f) ->
                    ymax f * -0.1 <= y <= ymax f * 1.1.
Proof.
  intros w call.
  split; [discriminate |]. split; [discriminate |].
  split; [exact normal_call_succeeds |].
  split; [exact normal_pdf_nonneg |].
  destruct (curves_fit_vertical_limits normal 0 1 0.05 2 w
              ltac:(discriminate) ltac:(discriminate) normal_call_succeeds)
    as (f & Hrun & Hy & _ & _ & Hfit).
  exists f. split; [exact Hrun |]. split; [exact Hy |].
  exact (Hfit normal_pdf_nonneg).
Defined.

(** ** What reaches the screen *)

Lemma filter_show_curves f : filter is_show (curves f) = [].
Proof. reflexivity. Qed.

Lemma annotations_nonempty f : annotations f <> [].
Proof.
  destruct (annotations_shape f) as (_ & _ & _ & _ & _ & _ & Hl & _).
  intros H. rewrite H in Hl. discriminate.
Qed.

(** X6: [plt.show] is called exactly when the call ends normally, and then
    once, as the last drawing call.  A call that raises, for an empty
    sample or for a failed quantile request, never shows the figure. *)
Theorem show_exactly_on_success
    (norm : norm_provider) (control experimental : loc) (alpha : R) (tails : Z)
    (w : world) :
  let call := plot_cvr_distributions norm control experimental alpha tails in
  (outcome call w = Ok tt <-> In Show (drawn call w))
  /\ (outcome call w = Ok tt ->
      filter is_show (drawn call w) = [Show] /\ last (drawn call w) Legend = Show).
Proof.
  intros call.
  assert (Hcases :
            (outcome call w = Ok tt /\ filter is_show (drawn call w) = [Show]
             /\ last (drawn call w) Legend = Show)
            \/ (outcome call w <> Ok tt /\ filter is_show (drawn call w) = [])).
  { destruct (heap w control) as [| c cs] eqn:Hc.
    { right. unfold outcome, drawn, exec, call.
      rewrite plot_empty by auto. cbn [fst snd]. rewrite skipn_all.
      split; [discriminate | reflexivity]. }
    destruct (heap w experimental) as [| e es] eqn:He.
    { right. unfold outcome, drawn, exec, call.
      rewrite plot_empty by auto. cbn [fst snd]. rewrite skipn_all.
      split; [discriminate | reflexivity]. }
    destruct (plot_drawn norm control experimental alpha tails w)
      as (r & ts & _ & Hts & Hr & Hd); [congruence | congruence |].
    fold call in Hr, Hd. rewrite Hr, Hd.
    destruct r as [[] | err].
    - left. split; [reflexivity |].
      destruct (annotations_shape
                  (frame_of norm (heap w control) (heap w experimental)))
        as (_ & _ & _ & _ & Hs & Hl & _).
      split.
      + now rewrite !filter_app, filter_show_curves, (filter_tail_calls ts Hts), Hs.
      + rewrite app_assoc, last_app_nonempty by apply annotations_nonempty.
        exact Hl.
    - right. split; [discriminate |].
      now rewrite !filter_app, filter_show_curves, (filter_tail_calls ts Hts). }
  split.
  - split.
    + intros Hok. destruct Hcases as [(_ & Hf & _) | (Hno & _)]; [| contradiction].
      assert (Hin : In Show (filter is_show (drawn call w))) by (rewrite Hf; now left).
      now apply filter_In in Hin.
    + intros Hin. destruct Hcases as [(Hok & _) | (_ & Hf)]; [exact Hok |].
      assert (Hin' : In Show (filter is_show (drawn call w)))
        by (apply filter_In; split; [exact Hin | reflexivity]).
      rewrite Hf in Hin'. contradiction.
  - intros Hok. destruct Hcases as [(_ & Hf & Hl) | (Hno & _)]; [| contradiction].
    split; assumption.
Qed.

Lemma show_exactly_on_success_witness :
  let w := sample_world [1; 0; 1; 0]%Z [1; 1; 1; 0]%Z in
  let call := plot_cvr_distributions normal 0 1 0.05 2 in
  outcome call w = Ok tt
  /\ In Show (drawn call w)
  /\ filter is_show (drawn call w) = [Show]
  /\ last (drawn call w) Legend = Show.
Proof.
  intros w call.
  pose proof (show_exactly_on_success normal 0 1 0.05 2 w) as [Hiff Hlast].
  split; [exact normal_call_succeeds |].
  split; [exact (proj1 Hiff normal_call_succeeds) |].
  exact (Hlast normal_call_succeeds).
Defined.

(** X7: on non-empty samples, when the first quantile request fails (at
    [1 - alpha/2] for [tails = 2], at [1 - alpha] otherwise) the call raises
    that error after having created the figure and drawn the two curves,
    and nothing more.  Over a provider that answers [DomainError] to every
    probability outside (0,1) and a value to every probability inside,
    this is the only way a call on non-empty samples fails: whenever it
    raises, the error is [DomainError] and exactly the figure and the two
    curves have been drawn. *)
Theorem failed_quantile_leaves_partial_chart
    (norm : norm_provider) (control experimental : loc) (alpha : R) (tails : Z)
    (w : world) :
  heap w control <> [] -> heap w experimental <> [] ->
  let call := plot_cvr_distributions norm control experimental alpha tails in
  exists f,
    statistics norm control experimental w = (Ok f, w)
    /\ let mu := control_cvr f in
       let sd := population_std f in
       let curves_only :=
         [ Subplots 12 6;
           Plot (x_control f) (y_control f) "control" "grey";
           Plot (x_experimental f) (y_experimental f) "experimental" "green" ] in
       (forall e,
           ppf norm mu sd (if Z.eqb tails 2 then 1 - alpha / 2 else 1 - alpha) = Err e ->
           outcome call w = Err e /\ drawn call w = curves_only)
       /\ (rejects_outside_unit_interval norm ->
           forall e,
             outcome call w = Err e ->
             e = DomainError /\ drawn call w = curves_only).
Proof.
  intros Hc He call.
  set (f := frame_of norm (heap w control) (heap w experimental)).
  exists f. split; [now apply statistics_nonempty |].
  assert (Hrun : forall e ts,
             appends (draw_tails norm f alpha tails) (Err e) ts ->
             outcome call w = Err e /\ drawn call w = curves f ++ ts).
  { intros e ts Hts. apply render_err in Hts.
    unfold outcome, drawn, exec, call. rewrite plot_nonempty by assumption.
    fold f. rewrite Hts. cbn [fst snd]. now rewrite skipn_extend. }
  intros mu sd curves_only.
  assert (Hfirst : forall e,
             ppf norm mu sd (if Z.eqb tails 2 then 1 - alpha / 2 else 1 - alpha) = Err e ->
             outcome call w = Err e /\ drawn call w = curves_only).
  { intros e Hq. destruct (Z.eqb tails 2) eqn:Ht.
    + apply Z.eqb_eq in Ht. subst tails.
      destruct (Hrun e [] (draw_tails_two_upper_fails norm f alpha e Hq)) as [Ho Hd].
      split; [exact Ho |]. rewrite Hd. apply app_nil_r.
    + apply Z.eqb_neq in Ht.
      destruct (Hrun e [] (draw_tails_one_fails norm f alpha tails e Ht Hq)) as [Ho Hd].
      split; [exact Ho |]. rewrite Hd. apply app_nil_r. }
  split; [exact Hfirst |].
  intros Hn e Hout.
  assert (Hcall : outcome call w = outcome (render norm f alpha tails) w).
  { unfold outcome, call. now rewrite plot_nonempty. }
  set (q := if Z.eqb tails 2 then 1 - alpha / 2 else 1 - alpha) in *.
  destruct (Rlt_dec 0 q) as [Hq0 | Hq0]; [destruct (Rlt_dec q 1) as [Hq1 | Hq1] |].
  - (* the first request is inside (0,1): so are the others, and the call ends normally *)
    exfalso. rewrite Hcall in Hout. unfold q in *.
    destruct (Z.eqb tails 2) eqn:Ht.
    + apply Z.eqb_eq in Ht. subst tails.
      rewrite render_two_tailed_outcome in Hout.
      rewrite !(after_inside norm Hn) in Hout by lra. discriminate.
    + apply Z.eqb_neq in Ht.
      rewrite (render_one_tailed_outcome norm f alpha tails w Ht) in Hout.
      rewrite !(after_inside norm Hn) in Hout by lra. discriminate.
  - assert (Hq : ppf norm mu sd q = Err DomainError)
      by (apply (proj2 (Hn mu sd q)); lra).
    destruct (Hfirst DomainError Hq) as [Ho Hd].
    rewrite Ho in Hout. split; [congruence | exact Hd].
  - assert (Hq : ppf norm mu sd q = Err DomainError)
      by (apply (proj2 (Hn mu sd q)); lra).
    destruct (Hfirst DomainError Hq) as [Ho Hd].
    rewrite Ho in Hout. split; [congruence | exact Hd].
Qed.

Lemma failed_quantile_leaves_partial_chart_witness :
  let w := sample_world [1; 0; 1; 0]%Z [1; 1; 1; 0]%Z in
  let call := plot_cvr_distributions normal 0 1 0 1 in
  heap w 0 <> [] /\ heap w 1 <> []
  /\ rejects_outside_unit_interval normal
  /\ exists f,
       statistics normal 0 1 w = (Ok f, w)
       /\ ppf normal (control_cvr f) (population_std f) (1 - 0) = Err DomainError
       /\ outcome call w = Err DomainError
       /\ drawn call w
          = [ Subplots 12 6;
              Plot (x_control f) (y_control f) "control" "grey";
              Plot (x_experimental f) (y_experimental f) "experimental" "green" ]
       /\ (DomainError = DomainError
           /\ drawn call w
              = [ Subplots 12 6;
                  Plot (x_control f) (y_control f) "control" "grey";
                  Plot (x_experimental f) (y_experimental f) "experimental" "green" ]).
Proof.
  intros w call.
  split; [discriminate |]. split; [discriminate |].
  split; [exact normal_rejects_outside_unit_interval |].
  destruct (failed_quantile_leaves_partial_chart normal 0 1 0 1 w
              ltac:(discriminate) ltac:(discriminate)) as (f & Hrun & Hfirst & Hany).
  exists f. split; [exact Hrun |].
  assert (Hq : ppf normal (control_cvr f) (population_std f) (1 - 0) = Err DomainError)
    by (apply normal_ppf_outside; lra).
  split; [exact Hq |].
  destruct (Hfirst DomainError Hq) as [Ho Hd].
  split; [exact Ho |]. split; [exact Hd |].
  exact (Hany normal_rejects_outside_unit_interval DomainError Ho).
Defined.

(** ** Any other value of [tails] *)

(** X8: a call with any [tails] other than 2 behaves exactly as the call
    with [tails = 1]: same result, same world afterwards. *)
Theorem other_tails_behave_as_one
    (norm : norm_provider) (control experimental : loc) (alpha : R) (tails : Z)
    (w : world) :
  tails <> 2%Z ->
  plot_cvr_distributions norm control experimental alpha tails w
  = plot_cvr_distributions norm control experimental alpha 1 w.
Proof.
  intros Ht.
  assert (Hd : forall f, draw_tails norm f alpha tails = draw_tails norm f alpha 1).
  { intros f. unfold draw_tails. now rewrite (proj2 (Z.eqb_neq tails 2) Ht). }
  unfold plot_cvr_distributions, bind.
  destruct (statistics norm control experimental w) as [[f | e] w']; [| reflexivity].
  unfold render. now rewrite Hd.
Qed.

Lemma other_tails_behave_as_one_witness :
  let w := sample_world [1; 0; 1; 0]%Z [1; 1; 1; 0]%Z in
  (3 <> 2)%Z
  /\ plot_cvr_distributions normal 0 1 0.05 3 w
     = plot_cvr_distributions normal 0 1 0.05 1 w.
Proof.
  intros w. split; [discriminate |].
  apply (other_tails_behave_as_one normal 0 1 0.05 3 w). discriminate.
Defined.

(** ** The observed rates on the chart *)








